(** * update_traefik_and_cloudflare_authelia.py: a shallow embedding

    The script reads a Traefik dynamic configuration (YAML), adds one
    router and one service to it, registers a CNAME record with
    Cloudflare and adds the new subdomain to Authelia's access-control
    rules.  This development embeds the script as Rocq functions and
    proves the properties its specification states.

    Conventions of the embedding:
    - a Python [str] is a [string] whose characters are read as code
      points below 256; [strip] and [lower] follow CPython on that range;
    - a parsed YAML document is a tree ([yaml]); mapping keys are strings
      and a mapping keeps its insertion order, as a Python [dict] does;
      a document that shares nodes through YAML anchors is an object
      graph ([store]), on which the merge is embedded a second time;
    - a file is named by its path string and holds a text; [yaml.dump]
      and [yaml.safe_load] are taken as given (PyYAML is not part of the
      repository);
    - an uncaught Python exception and [sys.exit] are explicit outcomes. *)

From Stdlib Require Import String Ascii List ZArith NArith Bool Lia.
From Stdlib Require Import Sorted Permutation DecimalString.
Import ListNotations.

Set Warnings "-register-all".

Local Open Scope string_scope.
Local Open Scope list_scope.

(** ** Python strings *)

(** An f-string: the concatenation of its pieces. *)
Definition fstr (parts : list string) : string := String.concat EmptyString parts.

(** [str.isspace] on one character (code points below 256). *)
Definition isspace (c : ascii) : bool :=
  let n := N_of_ascii c in
  ((9 <=? n) && (n <=? 13) || (28 <=? n) && (n <=? 32)
   || (n =? 133) || (n =? 160))%N.

(** [str.lower] on one character (code points below 256). *)
Definition lower_char (c : ascii) : ascii :=
  let n := N_of_ascii c in
  if ((65 <=? n) && (n <=? 90)
      || (192 <=? n) && (n <=? 222) && negb (n =? 215))%N
  then ascii_of_N (n + 32) else c.

Fixpoint lower (s : string) : string :=
  match s with
  | EmptyString => EmptyString
  | String c r => String (lower_char c) (lower r)
  end.

Fixpoint lstrip (s : string) : string :=
  match s with
  | EmptyString => EmptyString
  | String c r => if isspace c then lstrip r else s
  end.

(** [rstrip] drops the trailing run of whitespace. *)
Fixpoint rstrip (s : string) : string :=
  match s with
  | EmptyString => EmptyString
  | String c r =>
      match rstrip r with
      | EmptyString => if isspace c then EmptyString else String c EmptyString
      | r' => String c r'
      end
  end.

Definition strip (s : string) : string := rstrip (lstrip s).

(** [str(n)] for an [int]. *)
Definition str_of_int (z : Z) : string := NilZero.string_of_int (Z.to_int z).

(** Truthiness of the result of [os.getenv]: [None] and [''] are falsy. *)
Definition truthy (v : option string) : bool :=
  match v with
  | None => false
  | Some s => negb (s =? EmptyString)
  end.

(** ** Parsed YAML documents and Python exceptions *)

(** The documents are trees of null, booleans, integers, strings, lists
    and mappings with string keys.  A mapping with a key of another type
    (the integer [8080], say) and floats, dates and sets are outside this
    type, and so is a node referenced twice through an anchor and its
    alias: the section on documents with shared nodes has the object
    graphs for those. *)
Inductive yaml : Type :=
| YNull
| YBool (b : bool)
| YInt (z : Z)
| YStr (s : string)
| YSeq (xs : list yaml)
| YMap (kvs : list (string * yaml)).

Definition dict : Type := list (string * yaml).

Inductive exn : Type :=
| KeyError | TypeError | AttributeError
| FileNotFoundError | YAMLError | EOFError | RequestException.

Inductive result (A : Type) : Type :=
| Ok (a : A)
| Raise (e : exn).
Arguments Ok {A} a.
Arguments Raise {A} e.

Definition rbind {A B} (r : result A) (k : A -> result B) : result B :=
  match r with
  | Ok a => k a
  | Raise e => Raise e
  end.

Declare Scope result_scope.
Delimit Scope result_scope with result.
Notation "x <- r ;; k" := (rbind r (fun x => k))
  (at level 61, r at next level, right associativity) : result_scope.

(** ** Python dictionaries: insertion-ordered association lists *)

Definition keys (d : dict) : list string := map fst d.

Fixpoint dict_get (d : dict) (k : string) : option yaml :=
  match d with
  | [] => None
  | (k', v) :: r => if k' =? k then Some v else dict_get r k
  end.

(** [d[k] = v]: an existing key keeps its place, a new key goes last. *)
Fixpoint dict_set (d : dict) (k : string) (v : yaml) : dict :=
  match d with
  | [] => [(k, v)]
  | (k', v') :: r =>
      if k' =? k then (k', v) :: r else (k', v') :: dict_set r k v
  end.

(** [d.update(other)]. *)
Definition dict_update (d other : dict) : dict :=
  fold_left (fun acc kv => dict_set acc (fst kv) (snd kv)) other d.

(** [dict(items)]. *)
Definition dict_of_items (items : list (string * yaml)) : dict :=
  dict_update [] items.

(** [sorted(d.items())].  Items are compared as tuples; the keys of a
    dictionary are pairwise distinct, so the comparison is decided by the
    key and the values are never compared.  The sort is stable. *)
Fixpoint insert_item (kv : string * yaml) (l : list (string * yaml))
  : list (string * yaml) :=
  match l with
  | [] => [kv]
  | kv' :: r =>
      if String.ltb (fst kv') (fst kv)
      then kv' :: insert_item kv r
      else kv :: l
  end.

Fixpoint sorted_items (l : list (string * yaml)) : list (string * yaml) :=
  match l with
  | [] => []
  | kv :: r => insert_item kv (sorted_items r)
  end.

(** [sorted(keys)] on a list of strings, for the property
    [sorted(keys_after) == keys_after]. *)
Fixpoint insert_key (k : string) (l : list string) : list string :=
  match l with
  | [] => [k]
  | k' :: r =>
      if String.ltb k' k then k' :: insert_key k r else k :: l
  end.

Fixpoint sorted_keys (l : list string) : list string :=
  match l with
  | [] => []
  | k :: r => insert_key k (sorted_keys r)
  end.

(** A dictionary has pairwise distinct keys. *)
Definition dict_wf (d : dict) : Prop := NoDup (keys d).

Fixpoint distinct (l : list string) : bool :=
  match l with
  | [] => true
  | k :: r => negb (existsb (String.eqb k) r) && distinct r
  end.

(** Ascending order of strings, by code point. *)
Definition str_le (a b : string) : Prop := String.leb a b = true.

(** ** Subscripting and methods on parsed values *)

(** [v[k]] with a string key. *)
Definition getitem (v : yaml) (k : string) : result yaml :=
  match v with
  | YMap d =>
      match dict_get d k with
      | Some x => Ok x
      | None => Raise KeyError
      end
  | _ => Raise TypeError
  end.

(** [v[k] = x] with a string key. *)
Definition setitem (v : yaml) (k : string) (x : yaml) : result yaml :=
  match v with
  | YMap d => Ok (YMap (dict_set d k x))
  | _ => Raise TypeError
  end.

(** [v.update(entry)]: only a mapping has the method. *)
Definition update_method (v : yaml) (entry : dict) : result dict :=
  match v with
  | YMap d => Ok (dict_update d entry)
  | _ => Raise AttributeError
  end.

(** [v.append(x)]: only a sequence has the method. *)
Definition append_method (v : yaml) (x : yaml) : result yaml :=
  match v with
  | YSeq xs => Ok (YSeq (xs ++ [x]))
  | _ => Raise AttributeError
  end.

(** ** Router and service entries (lines 79-98) *)

Definition new_subdomain (service_name DOMAIN_NAME : string) : string :=
  fstr [service_name; "."; DOMAIN_NAME].

Definition router_definition (service_name DOMAIN_NAME : string) : yaml :=
  YMap [("entryPoints", YSeq [YStr "https"]);
        ("rule", YStr (fstr ["Host(`"; service_name; "."; DOMAIN_NAME; "`)"]));
        ("middlewares", YSeq [YStr "chain-no-auth"]);
        ("tls", YMap []);
        ("service", YStr (fstr [service_name; "-svc"]))].

Definition router_entry (service_name DOMAIN_NAME : string) : dict :=
  [(service_name, router_definition service_name DOMAIN_NAME)].

Definition service_definition (scheme ip_address : string) : yaml :=
  YMap [("loadBalancer",
         YMap [("servers",
                YSeq [YMap [("url", YStr (fstr [scheme; "://"; ip_address; "/"]))]]);
               ("passHostHeader", YBool true)])].

Definition service_entry (service_name scheme ip_address : string) : dict :=
  [(fstr [service_name; "-svc"], service_definition scheme ip_address)].

(** ** The merge (lines 100-108) *)

(** [m = config['http'][section]; m.update(entry);
    config['http'][section] = dict(sorted(m.items()))].  On a tree the
    update in place of [m] and the assignment to [config['http'][section]]
    are one change of the document; [h_merge_section] is the same code on
    an object graph, where the mapping can be referenced from elsewhere. *)
Definition merge_section (section : string) (entry : dict) (config : yaml)
  : result yaml :=
  (http <- getitem config "http" ;;
   m <- getitem http section ;;
   m' <- update_method m entry ;;
   http' <- setitem http section (YMap (dict_of_items (sorted_items m'))) ;;
   setitem config "http" http')%result.

Definition merge (DOMAIN_NAME service_name ip_address scheme : string)
  (config : yaml) : result yaml :=
  (config1 <- merge_section "routers"
                (router_entry service_name DOMAIN_NAME) config ;;
   merge_section "services"
     (service_entry service_name scheme ip_address) config1)%result.

(** The two mappings of a routing document. *)
Definition section_of (config : yaml) (section : string) : result yaml :=
  (http <- getitem config "http" ;; getitem http section)%result.

(** A routing document of the data model: a mapping [top] whose key
    [http] holds a mapping with the two mappings [routers] and
    [services]. *)
Definition routing_document (config : yaml) (top http routers services : dict)
  : Prop :=
  config = YMap top /\
  dict_get top "http" = Some (YMap http) /\
  dict_get http "routers" = Some (YMap routers) /\
  dict_get http "services" = Some (YMap services) /\
  dict_wf routers /\ dict_wf services.

(** ** Python equality on parsed values *)

(** [a == b]: [True == 1] and [False == 0] hold in Python, sequences are
    compared element by element and mappings key by key, whatever the
    insertion order. *)
Fixpoint py_eq (a b : yaml) {struct a} : bool :=
  match a, b with
  | YNull, YNull => true
  | YBool x, YBool y => Bool.eqb x y
  | YBool x, YInt z => (z =? (if x then 1 else 0))%Z
  | YInt z, YBool x => (z =? (if x then 1 else 0))%Z
  | YInt x, YInt y => (x =? y)%Z
  | YStr s, YStr t => s =? t
  | YSeq xs, YSeq ys =>
      (fix seq_eq (xs ys : list yaml) {struct xs} : bool :=
         match xs, ys with
         | [], [] => true
         | x :: xs', y :: ys' => py_eq x y && seq_eq xs' ys'
         | _, _ => false
         end) xs ys
  | YMap d, YMap e =>
      (length d =? length e)%nat &&
      (fix map_eq (d : list (string * yaml)) {struct d} : bool :=
         match d with
         | [] => true
         | (k, v) :: d' =>
             match dict_get e k with
             | Some w => py_eq v w
             | None => false
             end && map_eq d'
         end) d
  | _, _ => false
  end.

(** ** The access-control update (lines 136-145) *)

Definition one_factor_rule (new_subdomain : string) : yaml :=
  YMap [("domain", YSeq [YStr new_subdomain]); ("policy", YStr "one_factor")].

(** [rule['policy'] == 'one_factor']. *)
Definition is_one_factor (policy : yaml) : bool :=
  match policy with
  | YStr s => s =? "one_factor"
  | _ => false
  end.

(** The [for] loop over a list of rules.  [Some rules'] is the list after
    [rule['domain'].append(new_subdomain); break]; [None] means the loop
    ran to its end, so the [else] branch is taken.  The append in place
    is the change of that one rule of the tree; a domain list that several
    rules share through an alias is outside this model. *)
Fixpoint scan_rules (new_subdomain : string) (rules : list yaml)
  : result (option (list yaml)) :=
  match rules with
  | [] => Ok None
  | rule :: rest =>
      (policy <- getitem rule "policy" ;;
       if is_one_factor policy then
         domain <- getitem rule "domain" ;;
         domain' <- append_method domain (YStr new_subdomain) ;;
         rule' <- setitem rule "domain" domain' ;;
         Ok (Some (rule' :: rest))
       else
         found <- scan_rules new_subdomain rest ;;
         Ok (option_map (cons rule) found))%result
  end.

(** Lines 137-145 on the value of [authelia_config['access_control']['rules']].
    Iterating a mapping or a string yields strings, on which [rule['policy']]
    raises [TypeError]; when they are empty the [else] branch calls
    [append], which neither has. *)
Definition update_rules (new_subdomain : string) (rules : yaml) : result yaml :=
  match rules with
  | YSeq items =>
      (found <- scan_rules new_subdomain items ;;
       match found with
       | Some items' => Ok (YSeq items')
       | None => append_method rules (one_factor_rule new_subdomain)
       end)%result
  | YMap [] => Raise AttributeError
  | YStr EmptyString => Raise AttributeError
  | _ => Raise TypeError
  end.

(** The update as a function of the whole document: the rule list is
    changed in place, everything else stays. *)
Definition update_access_control (new_subdomain : string) (authelia_config : yaml)
  : result yaml :=
  (access_control <- getitem authelia_config "access_control" ;;
   rules <- getitem access_control "rules" ;;
   rules' <- update_rules new_subdomain rules ;;
   access_control' <- setitem access_control "rules" rules' ;;
   setitem authelia_config "access_control" access_control')%result.

(** A rule of the data model: a mapping with a sequence under [domain]
    and a string under [policy]. *)
Definition access_rule (rule : yaml) : bool :=
  match rule with
  | YMap d =>
      match dict_get d "domain", dict_get d "policy" with
      | Some (YSeq _), Some (YStr _) => true
      | _, _ => false
      end
  | _ => false
  end.

(** The rule has policy [one_factor]. *)
Definition one_factor (rule : yaml) : bool :=
  match getitem rule "policy" with
  | Ok policy => is_one_factor policy
  | Raise _ => false
  end.

(** An access-control document of the data model: a mapping [top] whose
    key [access_control] holds a mapping with the rule list under
    [rules]. *)
Definition access_document (authelia_config : yaml) (top access_control : dict)
  (rules : list yaml) : Prop :=
  authelia_config = YMap top /\
  dict_get top "access_control" = Some (YMap access_control) /\
  dict_get access_control "rules" = Some (YSeq rules) /\
  forallb access_rule rules = true.

(** The document with its rule list replaced. *)
Definition with_rules (top access_control : dict) (rules : list yaml) : yaml :=
  YMap (dict_set top "access_control"
          (YMap (dict_set access_control "rules" (YSeq rules)))).

(** [authelia_config['access_control']['rules']]. *)
Definition rules_of (authelia_config : yaml) : result yaml :=
  (access_control <- getitem authelia_config "access_control" ;;
   getitem access_control "rules")%result.

(** The domain list of the first rule with policy [one_factor]. *)
Definition first_one_factor_domain (rules : list yaml) : option yaml :=
  match find one_factor rules with
  | Some (YMap d) => dict_get d "domain"
  | _ => None
  end.

(** ** The process: environment, files, terminal and network *)

Record request : Type := {
  req_url : string;
  req_headers : list (string * string);
  req_json : dict
}.

Record response : Type := {
  status_code : Z;
  text : string
}.

(** What the process is given and cannot change. *)
Record world : Type := {
  os_environ : string -> option string;
  dotenv_values : string -> option string;   (* the pairs of the .env file *)
  sys_argv : list string;
  now : string;   (* datetime.now().strftime("%Y%m%d_%H%M%S") *)
  requests_post : request -> option response   (* None: the call raises *)
}.

(** PyYAML, as far as the script uses it. *)
Class YamlCodec (content : Type) : Type := {
  yaml_dump : yaml -> content;
  yaml_safe_load : content -> option yaml
}.

(** How a run ends: normally, by an uncaught exception, or by [sys.exit]. *)
Inductive outcome (A : Type) : Type :=
| Done (a : A)
| Uncaught (e : exn)
| SysExit (code : Z).
Arguments Done {A} a.
Arguments Uncaught {A} e.
Arguments SysExit {A} code.

Definition exit_code {A} (o : outcome A) : Z :=
  match o with
  | Done _ => 0
  | Uncaught _ => 1
  | SysExit code => code
  end.

Section Process.
Context {content : Type} {codec : YamlCodec content}.

Record state : Type := {
  files : string -> option content;
  dirs : list string;          (* directories made by os.makedirs *)
  stdout : list string;        (* printed lines and prompts, oldest first *)
  stdin : list string;         (* lines still to be read *)
  posted : list request        (* requests sent, oldest first *)
}.

Definition M (A : Type) : Type := state -> outcome A * state.

Definition ret {A} (a : A) : M A := fun st => (Done a, st).

Definition bind {A B} (m : M A) (k : A -> M B) : M B :=
  fun st =>
    match m st with
    | (Done a, st') => k a st'
    | (Uncaught e, st') => (Uncaught e, st')
    | (SysExit c, st') => (SysExit c, st')
    end.

Definition lift {A} (r : result A) : M A :=
  fun st =>
    match r with
    | Ok a => (Done a, st)
    | Raise e => (Uncaught e, st)
    end.

Definition sys_exit {A} (code : Z) : M A := fun st => (SysExit code, st).

(** The state after a line is printed. *)
Definition say (line : string) (st : state) : state :=
  {| files := files st; dirs := dirs st; stdout := stdout st ++ [line];
     stdin := stdin st; posted := posted st |}.

Definition print (line : string) : M unit := fun st => (Done tt, say line st).

(** The state after [input(prompt)]: the prompt is shown and one line of
    the terminal input is consumed. *)
Definition asked (prompt : string) (st : state) : state :=
  {| files := files st; dirs := dirs st; stdout := stdout st ++ [prompt];
     stdin := tl (stdin st); posted := posted st |}.

Definition input (prompt : string) : M string :=
  fun st =>
    match stdin st with
    | [] => (Uncaught EOFError, asked prompt st)
    | line :: _ => (Done line, asked prompt st)
    end.

(** The state after [os.makedirs(path, exist_ok=True)]: [dirs] records the
    directories asked for.  The parent directories that the call creates
    on the way and its failures (a file in the way, no permission) are
    not modelled. *)
Definition made (path : string) (st : state) : state :=
  {| files := files st;
     dirs := if existsb (String.eqb path) (dirs st) then dirs st
             else dirs st ++ [path];
     stdout := stdout st; stdin := stdin st; posted := posted st |}.

Definition makedirs (path : string) : M unit :=
  fun st => (Done tt, made path st).

(** [with open(path, 'r') as file: yaml.safe_load(file)]. *)
Definition load_file (path : string) : M yaml :=
  fun st =>
    match files st path with
    | None => (Uncaught FileNotFoundError, st)
    | Some c =>
        match yaml_safe_load c with
        | Some doc => (Done doc, st)
        | None => (Uncaught YAMLError, st)
        end
    end.

Definition write_content (path : string) (c : content)
  (fs : string -> option content) : string -> option content :=
  fun p => if p =? path then Some c else fs p.

(** The state after [with open(path, 'w') as file: yaml.dump(doc, file)]. *)
Definition wrote (path : string) (doc : yaml) (st : state) : state :=
  {| files := write_content path (yaml_dump doc) (files st);
     dirs := dirs st; stdout := stdout st; stdin := stdin st;
     posted := posted st |}.

Definition dump_file (path : string) (doc : yaml) : M unit :=
  fun st => (Done tt, wrote path doc st).

(** The state after a request is sent. *)
Definition sent (r : request) (st : state) : state :=
  {| files := files st; dirs := dirs st; stdout := stdout st;
     stdin := stdin st; posted := posted st ++ [r] |}.

Definition post (w : world) (r : request) : M response :=
  fun st =>
    match requests_post w r with
    | Some resp => (Done resp, sent r st)
    | None => (Uncaught RequestException, sent r st)
    end.

End Process.

Arguments state content : clear implicits.
Arguments M content A : clear implicits.

Declare Scope proc_scope.
Delimit Scope proc_scope with proc.
Notation "x <- m ;; k" := (bind m (fun x => k))
  (at level 61, m at next level, right associativity) : proc_scope.
Notation "m ;; k" := (bind m (fun _ => k))
  (at level 61, right associativity) : proc_scope.

(** ** The script *)

(** [os.getenv] after [load_dotenv()]: a variable already in the process
    environment is kept, the others come from the .env file. *)
Definition getenv (w : world) (name : string) : option string :=
  match os_environ w name with
  | Some v => Some v
  | None => dotenv_values w name
  end.

Definition CLOUDFLARE_API_TOKEN (w : world) : option string :=
  getenv w "CLOUDFLARE_API_TOKEN".

Definition CLOUDFLARE_ZONE_ID (w : world) : option string :=
  getenv w "CLOUDFLARE_ZONE_ID".

Definition DOMAIN_NAME (w : world) : option string :=
  getenv w "DOMAIN_NAME".

(** [None] or the empty string. *)
Definition missing_or_empty (v : option string) : Prop :=
  v = None \/ v = Some EmptyString.

(** The three settings pass the test of line 16. *)
Definition settings_present (w : world) : bool :=
  truthy (CLOUDFLARE_API_TOKEN w) && truthy (CLOUDFLARE_ZONE_ID w)
  && truthy (DOMAIN_NAME w).

(** The string held by a variable that passed the truthiness test. *)
Definition the (v : option string) : string :=
  match v with
  | Some s => s
  | None => EmptyString
  end.

Fixpoint endswith_slash (s : string) : bool :=
  match s with
  | EmptyString => false
  | String c EmptyString => (c =? "/")%char
  | String _ r => endswith_slash r
  end.

(** [os.path.join(a, b)] (posixpath). *)
Definition path_join (a b : string) : string :=
  if String.prefix "/" b then b
  else if (a =? EmptyString) || endswith_slash a then fstr [a; b]
  else fstr [a; "/"; b].

Definition authelia_config_path : string :=
  "/mnt/user/appdata/Authelia/configuration.yml".

Definition authelia_backup_dir : string :=
  "/mnt/user/appdata/Authelia/backups".

Definition backup_dir : string := "./backups".

Definition backup_file_of (timestamp : string) : string :=
  path_join backup_dir (fstr ["config_backup_"; timestamp; ".yml"]).

Definition authelia_backup_file_of (timestamp : string) : string :=
  path_join authelia_backup_dir
    (fstr ["configuration_backup_"; timestamp; ".yml"]).

Definition env_diagnostic : string :=
  "Please ensure CLOUDFLARE_API_TOKEN, CLOUDFLARE_ZONE_ID, and DOMAIN_NAME are set in the .env file.".

Definition usage_diagnostic : string :=
  "Usage: python update_traefik_and_cloudflare.py <path_to_config_file>".

Definition scheme_diagnostic : string :=
  "Invalid scheme. Please enter 'http' or 'https'.".

(** [scheme in ['http', 'https']]. *)
Definition valid_scheme (scheme : string) : bool :=
  existsb (String.eqb scheme) ["http"; "https"].

(** The messages of lines 39, 41 and 43. *)
Definition cname_message (cname_name cname_target : string) (r : response)
  : string :=
  if existsb (Z.eqb (status_code r)) [200; 201]%Z then
    fstr ["Successfully added CNAME record: "; cname_name; " -> "; cname_target]
  else if (status_code r =? 409)%Z then
    fstr ["CNAME record already exists: "; cname_name; " -> "; cname_target]
  else
    fstr ["Failed to add CNAME record: "; str_of_int (status_code r); " - ";
          text r].

Definition cname_request (api_token zone_id cname_name cname_target : string)
  : request :=
  {| req_url :=
       fstr ["https://api.cloudflare.com/client/v4/zones/"; zone_id;
             "/dns_records"];
     req_headers :=
       [("Authorization", fstr ["Bearer "; api_token]);
        ("Content-Type", "application/json")];
     req_json :=
       [("type", YStr "CNAME"); ("name", YStr cname_name);
        ("content", YStr cname_target); ("ttl", YInt 1);
        ("proxied", YBool true)] |}.

Section Script.
Context {content : Type} {codec : YamlCodec content}.
Variable w : world.

Local Open Scope proc_scope.

(** Lines 20-43. *)
Definition add_cname_record_to_cloudflare
  (api_token zone_id cname_name cname_target : string) : M content unit :=
  response <- post w (cname_request api_token zone_id cname_name cname_target) ;;
  print (cname_message cname_name cname_target response).

(** Lines 11-18: the three settings, or exit. *)
Definition check_environment : M content (string * string * string) :=
  if negb (truthy (CLOUDFLARE_API_TOKEN w))
     || negb (truthy (CLOUDFLARE_ZONE_ID w))
     || negb (truthy (DOMAIN_NAME w))
  then print env_diagnostic ;; sys_exit 1
  else ret (the (CLOUDFLARE_API_TOKEN w), the (CLOUDFLARE_ZONE_ID w),
            the (DOMAIN_NAME w)).

(** Lines 45-51: the path of the routing document, or exit. *)
Definition check_usage : M content string :=
  if negb (length (sys_argv w) =? 2)%nat
  then print usage_diagnostic ;; sys_exit 1
  else ret (nth 1 (sys_argv w) EmptyString).

(** Lines 53-67: load the routing document and write its backup. *)
Definition load_and_backup (config_file : string) : M content (yaml * string) :=
  config <- load_file config_file ;;
  makedirs backup_dir ;;
  let timestamp := now w in
  let backup_file := backup_file_of timestamp in
  dump_file backup_file config ;;
  print (fstr ["Backup of the original config file saved as "; backup_file]) ;;
  ret (config, timestamp).

(** Lines 69-77: the three answers, the scheme normalised and checked. *)
Definition read_inputs : M content (string * string * string) :=
  service_name <- input "Enter the name of your service: " ;;
  ip_address <- input (fstr ["Enter the IP address of "; service_name; ": "]) ;;
  answer <- input "Enter the scheme (http or https) for the service: " ;;
  let scheme := lower (strip answer) in
  if negb (valid_scheme scheme)
  then print scheme_diagnostic ;; sys_exit 1
  else ret (service_name, ip_address, scheme).

(** Lines 79-114: merge the two entries and overwrite the document. *)
Definition merge_and_save (config_file DOMAIN_NAME : string)
  (service_name ip_address scheme : string) (config : yaml) : M content unit :=
  config' <- lift (merge DOMAIN_NAME service_name ip_address scheme config) ;;
  dump_file config_file config' ;;
  print (fstr ["Updated config file saved as "; config_file]).

(** Lines 122-147. *)
Definition update_authelia_config (timestamp : string)
  (authelia_config_path new_subdomain : string) : M content unit :=
  makedirs authelia_backup_dir ;;
  let authelia_backup_file := authelia_backup_file_of timestamp in
  authelia_config <- load_file authelia_config_path ;;
  dump_file authelia_backup_file authelia_config ;;
  print (fstr ["Backup of the original Authelia config file saved as ";
               authelia_backup_file]) ;;
  authelia_config' <- lift (update_access_control new_subdomain authelia_config) ;;
  dump_file authelia_config_path authelia_config'.

(** Lines 116-152: the DNS record, then the access-control document. *)
Definition publish (timestamp : string)
  (CLOUDFLARE_API_TOKEN CLOUDFLARE_ZONE_ID DOMAIN_NAME service_name : string)
  : M content unit :=
  add_cname_record_to_cloudflare CLOUDFLARE_API_TOKEN CLOUDFLARE_ZONE_ID
    (fstr [service_name; "."; DOMAIN_NAME]) DOMAIN_NAME ;;
  let new_subdomain := new_subdomain service_name DOMAIN_NAME in
  update_authelia_config timestamp authelia_config_path new_subdomain ;;
  print (fstr ["Authelia configuration updated with new subdomain ";
               new_subdomain]).

(** The whole script, top to bottom. *)
Definition main : M content unit :=
  env <- check_environment ;;
  let '(CLOUDFLARE_API_TOKEN, CLOUDFLARE_ZONE_ID, DOMAIN_NAME) := env in
  config_file <- check_usage ;;
  loaded <- load_and_backup config_file ;;
  let '(config, timestamp) := loaded in
  answers <- read_inputs ;;
  let '(service_name, ip_address, scheme) := answers in
  merge_and_save config_file DOMAIN_NAME service_name ip_address scheme config ;;
  publish timestamp CLOUDFLARE_API_TOKEN CLOUDFLARE_ZONE_ID DOMAIN_NAME
    service_name.

(** *** The states a complete run goes through *)

(** After the backup of the routing document (line 67). *)
Definition backed_up (config : yaml) (st : state content) : state content :=
  say (fstr ["Backup of the original config file saved as ";
             backup_file_of (now w)])
    (wrote (backup_file_of (now w)) config (made backup_dir st)).

(** After the three prompts (line 72). *)
Definition answered (service_name : string) (st : state content)
  : state content :=
  asked "Enter the scheme (http or https) for the service: "
    (asked (fstr ["Enter the IP address of "; service_name; ": "])
       (asked "Enter the name of your service: " st)).

(** After the routing document is overwritten (line 114). *)
Definition saved (config_file : string) (config' : yaml) (st : state content)
  : state content :=
  say (fstr ["Updated config file saved as "; config_file])
    (wrote config_file config' st).

(** After the DNS call returned [resp] (line 117). *)
Definition registered (service_name : string) (resp : response)
  (st : state content) : state content :=
  let cname_name := fstr [service_name; "."; the (DOMAIN_NAME w)] in
  say (cname_message cname_name (the (DOMAIN_NAME w)) resp)
    (sent (cname_request (the (CLOUDFLARE_API_TOKEN w))
             (the (CLOUDFLARE_ZONE_ID w)) cname_name (the (DOMAIN_NAME w)))
       st).

(** After the access-control document is overwritten (line 152). *)
Definition authelia_updated (service_name : string)
  (authelia_config authelia_config' : yaml) (st : state content)
  : state content :=
  say (fstr ["Authelia configuration updated with new subdomain ";
             new_subdomain service_name (the (DOMAIN_NAME w))])
    (wrote authelia_config_path authelia_config'
       (say (fstr ["Backup of the original Authelia config file saved as ";
                   authelia_backup_file_of (now w)])
          (wrote (authelia_backup_file_of (now w)) authelia_config
             (made authelia_backup_dir st)))).

End Script.

(** ** A codec and a run to evaluate the script on *)

(** The trivial codec: a file holds the document itself. *)
#[export] Instance tree_codec : YamlCodec yaml :=
  {| yaml_dump := fun doc => doc; yaml_safe_load := fun c => Some c |}.

Definition example_routers : dict :=
  [("zeta", router_definition "zeta" "example.com")].

Definition example_services : dict :=
  [("zeta-svc", service_definition "http" "10.0.0.9")].

Definition example_http : dict :=
  [("routers", YMap example_routers); ("services", YMap example_services)].

Definition example_top : dict := [("http", YMap example_http)].

Definition example_config : yaml := YMap example_top.

Definition example_rules : list yaml :=
  [YMap [("domain", YSeq [YStr "vault.example.com"]);
         ("policy", YStr "two_factor")];
   YMap [("domain", YSeq [YStr "zeta.example.com"]);
         ("policy", YStr "one_factor")]].

Definition example_access_control : dict :=
  [("default_policy", YStr "deny"); ("rules", YSeq example_rules)].

Definition example_authelia_top : dict :=
  [("access_control", YMap example_access_control)].

Definition example_authelia : yaml := YMap example_authelia_top.

Definition example_world (status : Z) : world :=
  {| os_environ := fun _ => None;
     dotenv_values := fun name =>
       if name =? "CLOUDFLARE_API_TOKEN" then Some "token"
       else if name =? "CLOUDFLARE_ZONE_ID" then Some "zone"
       else if name =? "DOMAIN_NAME" then Some "example.com"
       else None;
     sys_argv := ["update_traefik_and_cloudflare_authelia.py"; "config.yml"];
     now := "20240131_235959";
     requests_post := fun _ => Some {| status_code := status; text := "{}" |} |}.

Definition example_state (answers : list string) : state yaml :=
  {| files := fun path =>
       if path =? "config.yml" then Some example_config
       else if path =? authelia_config_path then Some example_authelia
       else None;
     dirs := [];
     stdout := [];
     stdin := answers;
     posted := [] |}.

Definition example_answers : list string := ["alpha"; "10.0.0.5"; " HTTPS "].

(** The routing document after the merge of the example answers. *)
Definition example_merged : yaml :=
  Eval vm_compute in
    match merge "example.com" "alpha" "10.0.0.5" "https" example_config with
    | Ok config' => config'
    | Raise _ => YNull
    end.

(** The access-control document after the update with the example
    subdomain. *)
Definition example_authelia_updated : yaml :=
  Eval vm_compute in
    match update_access_control "alpha.example.com" example_authelia with
    | Ok authelia_config' => authelia_config'
    | Raise _ => YNull
    end.

(** A world in which no setting is defined. *)
Definition bare_world : world :=
  {| os_environ := fun _ => None;
     dotenv_values := fun _ => None;
     sys_argv := ["update_traefik_and_cloudflare_authelia.py"; "config.yml"];
     now := "20240131_235959";
     requests_post := fun _ => None |}.

(** ** Further vocabulary for the properties *)

(** The loop steps over the rule: it has a [policy] and that is not
    [one_factor]. *)
Definition skipped (rule : yaml) : bool :=
  match getitem rule "policy" with
  | Ok policy => negb (is_one_factor policy)
  | Raise _ => false
  end.

(** Every character is whitespace. *)
Fixpoint all_space (s : string) : bool :=
  match s with
  | EmptyString => true
  | String c r => isspace c && all_space r
  end.

(** A state like [example_state] with the two documents given, each
    possibly absent. *)
Definition state_of (config authelia : option yaml) (answers : list string)
  : state yaml :=
  {| files := fun path =>
       if path =? "config.yml" then config
       else if path =? authelia_config_path then authelia
       else None;
     dirs := [];
     stdout := [];
     stdin := answers;
     posted := [] |}.

(** A routing document without the [services] mapping. *)
Definition config_without_services : yaml :=
  YMap [("http", YMap [("routers", YMap example_routers)])].

(** An access-control document whose [one_factor] rule has a single
    string under [domain]. *)
Definition authelia_with_string_domain : yaml :=
  YMap [("access_control",
         YMap [("rules",
                YSeq [YMap [("domain", YStr "zeta.example.com");
                            ("policy", YStr "one_factor")]])])].

(** [example_world] with the network down. *)
Definition offline_world : world :=
  {| os_environ := os_environ (example_world 200);
     dotenv_values := dotenv_values (example_world 200);
     sys_argv := sys_argv (example_world 200);
     now := now (example_world 200);
     requests_post := fun _ => None |}.

(** *** What a computation may change *)

Section Footprint.
Context {content : Type} {codec : YamlCodec content}.

(** Run from any state, [m] ends in a state related to the first by [R],
    and a value it returns satisfies [Q]. *)
Definition run_spec {A} (R : state content -> state content -> Prop)
  (Q : A -> Prop) (m : M content A) : Prop :=
  forall st, R st (snd (m st)) /\ forall a, fst (m st) = Done a -> Q a.

(** The files outside [paths] are as they were. *)
Definition same_files_outside (paths : list string) (st st' : state content)
  : Prop :=
  forall p, ~ In p paths -> files st' p = files st p.

(** No request was sent. *)
Definition same_posted (st st' : state content) : Prop :=
  posted st' = posted st.

End Footprint.

(** The four paths the script opens for writing. *)
Definition written_paths (w : world) : list string :=
  [backup_file_of (now w); nth 1 (sys_argv w) EmptyString;
   authelia_backup_file_of (now w); authelia_config_path].


(** ** Reading a result *)



(** The word [http] with each letter in either case. *)
Definition spells_http (body : string) : Prop :=
  exists c1 c2 c3 c4 : ascii,
    body = String c1 (String c2 (String c3 (String c4 EmptyString))) /\
    (c1 = "h" \/ c1 = "H")%char /\ (c2 = "t" \/ c2 = "T")%char /\
    (c3 = "t" \/ c3 = "T")%char /\ (c4 = "p" \/ c4 = "P")%char.

(** The word [https] with each letter in either case. *)
Definition spells_https (body : string) : Prop :=
  exists c1 c2 c3 c4 c5 : ascii,
    body =
    String c1 (String c2 (String c3 (String c4 (String c5 EmptyString)))) /\
    (c1 = "h" \/ c1 = "H")%char /\ (c2 = "t" \/ c2 = "T")%char /\
    (c3 = "t" \/ c3 = "T")%char /\ (c4 = "p" \/ c4 = "P")%char /\
    (c5 = "s" \/ c5 = "S")%char.

(** The answer is such a word with whitespace before and after it and
    nothing else. *)
Definition padded (word : string -> Prop) (answer : string) : Prop :=
  exists l body r,
    answer = (l ++ body ++ r)%string /\
    all_space l = true /\ all_space r = true /\ word body.

(** [config['http']['services'][name]['loadBalancer']['servers'][0]['url']]
    of a service with one server. *)
Definition service_url (config : yaml) (name : string) : result yaml :=
  (services <- section_of config "services" ;;
   service <- getitem services name ;;
   loadBalancer <- getitem service "loadBalancer" ;;
   servers <- getitem loadBalancer "servers" ;;
   match servers with
   | YSeq [server] => getitem server "url"
   | _ => Raise TypeError
   end)%result.


(** ** Documents with shared nodes *)

(** PyYAML builds one Python object for each mapping and each sequence of
    a document, and an alias ([*name]) is a second reference to the object
    of its anchor ([&name]).  Lines 102 and 107 update such an object in
    place, so the change shows wherever the object is referenced.  Here a
    [value] is a scalar or the address of an object in a [store]; the
    trees of [yaml] are the documents in which no object is referenced
    twice. *)
Inductive value : Type :=
| VNull
| VBool (b : bool)
| VInt (z : Z)
| VStr (s : string)
| VRef (a : nat).

Inductive object : Type :=
| OMap (items : list (string * value))
| OSeq (items : list value).

Definition store : Type := list object.

(** Replace the object at an address. *)
Fixpoint store_set (h : store) (a : nat) (o : object) : store :=
  match h, a with
  | [], _ => []
  | _ :: r, O => o :: r
  | x :: r, S a' => x :: store_set r a' o
  end.

Section Items.
Variable V : Type.

(** The dictionary operations, on items with values of any kind. *)
Fixpoint odict_get (d : list (string * V)) (k : string) : option V :=
  match d with
  | [] => None
  | (k', v) :: r => if k' =? k then Some v else odict_get r k
  end.

Fixpoint odict_set (d : list (string * V)) (k : string) (v : V)
  : list (string * V) :=
  match d with
  | [] => [(k, v)]
  | (k', v') :: r =>
      if k' =? k then (k', v) :: r else (k', v') :: odict_set r k v
  end.

Definition odict_update (d other : list (string * V)) : list (string * V) :=
  fold_left (fun acc kv => odict_set acc (fst kv) (snd kv)) other d.

Definition odict_of_items (items : list (string * V)) : list (string * V) :=
  odict_update [] items.

Fixpoint oinsert_item (kv : string * V) (l : list (string * V))
  : list (string * V) :=
  match l with
  | [] => [kv]
  | kv' :: r =>
      if String.ltb (fst kv') (fst kv)
      then kv' :: oinsert_item kv r
      else kv :: l
  end.

Fixpoint osorted_items (l : list (string * V)) : list (string * V) :=
  match l with
  | [] => []
  | kv :: r => oinsert_item kv (osorted_items r)
  end.

End Items.

Arguments odict_get {V} d k.
Arguments odict_set {V} d k v.
Arguments odict_update {V} d other.
Arguments odict_of_items {V} items.
Arguments oinsert_item {V} kv l.
Arguments osorted_items {V} l.

(** The objects of a literal, innermost first; the value is the reference
    to the outermost one. *)
Fixpoint build (y : yaml) (h : store) {struct y} : value * store :=
  match y with
  | YNull => (VNull, h)
  | YBool b => (VBool b, h)
  | YInt z => (VInt z, h)
  | YStr s => (VStr s, h)
  | YSeq xs =>
      let '(vs, h1) :=
        (fix build_all (xs : list yaml) (h : store) {struct xs}
           : list value * store :=
           match xs with
           | [] => ([], h)
           | x :: r =>
               let '(v, h1) := build x h in
               let '(vs, h2) := build_all r h1 in
               (v :: vs, h2)
           end) xs h in
      (VRef (length h1), h1 ++ [OSeq vs])
  | YMap kvs =>
      let '(items, h1) :=
        (fix build_items (kvs : list (string * yaml)) (h : store) {struct kvs}
           : list (string * value) * store :=
           match kvs with
           | [] => ([], h)
           | (k, x) :: r =>
               let '(v, h1) := build x h in
               let '(items, h2) := build_items r h1 in
               ((k, v) :: items, h2)
           end) kvs h in
      (VRef (length h1), h1 ++ [OMap items])
  end.

(** [v[k]] with a string key. *)
Definition h_getitem (h : store) (v : value) (k : string) : result value :=
  match v with
  | VRef a =>
      match nth_error h a with
      | Some (OMap d) =>
          match odict_get d k with
          | Some x => Ok x
          | None => Raise KeyError
          end
      | _ => Raise TypeError
      end
  | _ => Raise TypeError
  end.

(** [v[k] = x]: the object of [v] is changed in place. *)
Definition h_setitem (h : store) (v : value) (k : string) (x : value)
  : result store :=
  match v with
  | VRef a =>
      match nth_error h a with
      | Some (OMap d) => Ok (store_set h a (OMap (odict_set d k x)))
      | _ => Raise TypeError
      end
  | _ => Raise TypeError
  end.

(** [v.update(entry)]: the object of [v] is changed in place. *)
Definition h_update (h : store) (v : value) (entry : list (string * value))
  : result store :=
  match v with
  | VRef a =>
      match nth_error h a with
      | Some (OMap d) => Ok (store_set h a (OMap (odict_update d entry)))
      | _ => Raise AttributeError
      end
  | _ => Raise AttributeError
  end.

(** [dict(sorted(v.items()))]: a new object. *)
Definition h_sorted_dict (h : store) (v : value) : result (value * store) :=
  match v with
  | VRef a =>
      match nth_error h a with
      | Some (OMap d) =>
          Ok (VRef (length h), h ++ [OMap (odict_of_items (osorted_items d))])
      | _ => Raise AttributeError
      end
  | _ => Raise AttributeError
  end.

(** Lines 101-103 and 106-108 on the object graph:
    [m = config['http'][section]; m.update(entry);
    config['http'][section] = dict(sorted(m.items()))].  The right-hand
    side is evaluated before [config['http']]. *)
Definition h_merge_section (section : string) (entry : list (string * value))
  (config : value) (h : store) : result store :=
  (http <- h_getitem h config "http" ;;
   m <- h_getitem h http section ;;
   h1 <- h_update h m entry ;;
   sorted <- h_sorted_dict h1 m ;;
   http' <- h_getitem (snd sorted) config "http" ;;
   h_setitem (snd sorted) http' section (fst sorted))%result.

(** Lines 79-108 on the object graph: the two literals are built, then
    merged. *)
Definition h_merge (DOMAIN_NAME service_name ip_address scheme : string)
  (config : value) (h : store) : result store :=
  let '(router, h1) := build (router_definition service_name DOMAIN_NAME) h in
  let '(service, h2) := build (service_definition scheme ip_address) h1 in
  (h3 <- h_merge_section "routers" [(service_name, router)] config h2 ;;
   h_merge_section "services" [(fstr [service_name; "-svc"], service)]
     config h3)%result.

(** The items of [config['http'][section]]. *)
Definition h_section (h : store) (config : value) (section : string)
  : result (list (string * value)) :=
  (http <- h_getitem h config "http" ;;
   m <- h_getitem h http section ;;
   match m with
   | VRef a =>
       match nth_error h a with
       | Some (OMap d) => Ok d
       | _ => Raise TypeError
       end
   | _ => Raise TypeError
   end)%result.

(** A routing document as an object graph: the object [c] of the document
    refers under [http] to the object [p], which refers under [routers]
    and [services] to the objects [r] and [v]. *)
Definition routing_graph (h : store) (config : value) (c p r v : nat)
  (routers services : list (string * value)) : Prop :=
  exists top http,
    config = VRef c /\
    nth_error h c = Some (OMap top) /\
    odict_get top "http" = Some (VRef p) /\
    nth_error h p = Some (OMap http) /\
    odict_get http "routers" = Some (VRef r) /\
    odict_get http "services" = Some (VRef v) /\
    nth_error h r = Some (OMap routers) /\
    nth_error h v = Some (OMap services) /\
    NoDup (map fst routers) /\ NoDup (map fst services).

(** The frame of the merge as claimed: every router key other than the
    service name and every service key other than [<service>-svc] has the
    value it had, and no key is lost. *)
Definition merge_changes_only_new_keys
  (DOMAIN_NAME service_name ip_address scheme : string)
  (config : value) (h : store) : Prop :=
  exists h' R0 S0 R S,
    h_merge DOMAIN_NAME service_name ip_address scheme config h = Ok h' /\
    h_section h config "routers" = Ok R0 /\
    h_section h config "services" = Ok S0 /\
    h_section h' config "routers" = Ok R /\
    h_section h' config "services" = Ok S /\
    (forall k, k <> service_name -> odict_get R k = odict_get R0 k) /\
    (forall k, k <> (service_name ++ "-svc")%string ->
               odict_get S k = odict_get S0 k) /\
    (forall k, In k (map fst R0) -> In k (map fst R)) /\
    (forall k, In k (map fst S0) -> In k (map fst S)).

(** The document
    [http: {routers: &shared {zeta: {service: zeta-svc}}, services: *shared}]
    as PyYAML loads it: object 1 is referenced twice. *)
Definition shared_store : store :=
  [OMap [("service", VStr "zeta-svc")];
   OMap [("zeta", VRef 0)];
   OMap [("routers", VRef 1); ("services", VRef 1)];
   OMap [("http", VRef 2)]].

Definition shared_config : value := VRef 3.

(** The same document without the alias: [services] has its own mapping. *)
Definition unshared_store : store :=
  [OMap [("service", VStr "zeta-svc")];
   OMap [("zeta", VRef 0)];
   OMap [("zeta-svc", VNull)];
   OMap [("routers", VRef 1); ("services", VRef 2)];
   OMap [("http", VRef 3)]].

Definition unshared_config : value := VRef 4.


(** The tree a value stands for: what [yaml.dump] writes of it when no
    object is referenced twice.  [None] when [depth] is not enough. *)
Fixpoint tree_of (depth : nat) (h : store) (x : value) : option yaml :=
  match depth with
  | O => None
  | S n =>
      match x with
      | VNull => Some YNull
      | VBool b => Some (YBool b)
      | VInt z => Some (YInt z)
      | VStr s => Some (YStr s)
      | VRef a =>
          match nth_error h a with
          | Some (OMap items) =>
              option_map YMap
                (fold_right
                   (fun kv acc =>
                      match tree_of n h (snd kv), acc with
                      | Some y, Some r => Some ((fst kv, y) :: r)
                      | _, _ => None
                      end) (Some []) items)
          | Some (OSeq items) =>
              option_map YSeq
                (fold_right
                   (fun v acc =>
                      match tree_of n h v, acc with
                      | Some y, Some r => Some (y :: r)
                      | _, _ => None
                      end) (Some []) items)
          | None => None
          end
      end
  end.

(** The values an object holds. *)
Definition refs (o : object) : list value :=
  match o with
  | OMap items => map snd items
  | OSeq items => items
  end.

(** [reaches h x a]: the object at [a] is the one [x] refers to or is
    referred to, at any depth, from within it. *)
Inductive reaches (h : store) : value -> nat -> Prop :=
| reaches_here a : reaches h (VRef a) a
| reaches_on a o x b :
    nth_error h a = Some o -> In x (refs o) -> reaches h x b ->
    reaches h (VRef a) b.

(** * Properties *)

(** ** The definitions on small inputs *)

Example strip_lower_mixed_case : lower (strip "  HtTpS 	") = "https".
Proof. reflexivity. Qed.

Example strip_keeps_inner_space : strip " a b " = "a b".
Proof. reflexivity. Qed.

Example valid_scheme_ftp : valid_scheme (lower (strip "ftp")) = false.
Proof. reflexivity. Qed.

Example str_of_int_503 : str_of_int 503 = "503".
Proof. reflexivity. Qed.

Example path_join_backup :
  backup_file_of "20240131_235959" = "./backups/config_backup_20240131_235959.yml".
Proof. reflexivity. Qed.

Example dict_set_existing_keeps_place :
  dict_set [("b", YInt 1); ("a", YInt 2)] "b" (YInt 3) =
  [("b", YInt 3); ("a", YInt 2)].
Proof. reflexivity. Qed.

Example sorted_items_by_code_point :
  keys (sorted_items [("zeta", YNull); ("alpha", YNull); ("Zulu", YNull)]) =
  ["Zulu"; "alpha"; "zeta"].
Proof. reflexivity. Qed.

Example py_eq_ignores_key_order :
  py_eq (YMap [("a", YInt 1); ("b", YSeq [YBool true])])
        (YMap [("b", YSeq [YInt 1]); ("a", YInt 1)]) = true.
Proof. reflexivity. Qed.

(** A document without the key [http] makes the merge raise. *)
Example merge_without_http :
  merge "example.com" "alpha" "10.0.0.5" "http" (YMap []) = Raise KeyError.
Proof. reflexivity. Qed.

(** An empty [routers:] entry parses to null, which has no [update]. *)
Example merge_null_routers :
  merge "example.com" "alpha" "10.0.0.5" "http"
    (YMap [("http", YMap [("routers", YNull); ("services", YMap [])])]) =
  Raise AttributeError.
Proof. reflexivity. Qed.

(** A [one_factor] rule whose [domain] is a single string has no
    [append]. *)
Example update_rules_domain_string :
  update_rules "alpha.example.com"
    (YSeq [YMap [("domain", YStr "zeta.example.com");
                 ("policy", YStr "one_factor")]]) =
  Raise AttributeError.
Proof. reflexivity. Qed.

Example update_rules_no_one_factor :
  update_rules "alpha.example.com"
    (YSeq [YMap [("domain", YSeq [YStr "vault.example.com"]);
                 ("policy", YStr "two_factor")]]) =
  Ok (YSeq [YMap [("domain", YSeq [YStr "vault.example.com"]);
                  ("policy", YStr "two_factor")];
            YMap [("domain", YSeq [YStr "alpha.example.com"]);
                  ("policy", YStr "one_factor")]]).
Proof. reflexivity. Qed.

Example cname_message_409 :
  cname_message "alpha.example.com" "example.com"
    {| status_code := 409; text := "conflict" |} =
  "CNAME record already exists: alpha.example.com -> example.com".
Proof. reflexivity. Qed.

(** With the network down the run ends in an uncaught exception, after
    the routing document has been overwritten. *)
Example main_network_down :
  let w := {| os_environ := os_environ (example_world 200);
              dotenv_values := dotenv_values (example_world 200);
              sys_argv := sys_argv (example_world 200);
              now := now (example_world 200);
              requests_post := fun _ => None |} in
  let run := main w (example_state example_answers) in
  fst run = Uncaught RequestException /\
  files (snd run) "config.yml" = Some example_merged /\
  files (snd run) authelia_config_path = Some example_authelia.
Proof. repeat split. Qed.

(** The terminal closed before the third answer. *)
Example main_end_of_input :
  fst (main (example_world 200) (example_state ["alpha"; "10.0.0.5"])) =
  Uncaught EOFError.
Proof. reflexivity. Qed.

(** ** The order on strings *)

Lemma compare_refl (s : string) : String.compare s s = Eq.
Proof.
  pose proof (String.compare_antisym s s) as H.
  destruct (String.compare s s); simpl in H; congruence.
Qed.

Lemma ltb_irrefl (s : string) : String.ltb s s = false.
Proof. unfold String.ltb. now rewrite compare_refl. Qed.

Lemma ltb_neq (a b : string) : String.ltb a b = true -> a <> b.
Proof. intros H ->. rewrite ltb_irrefl in H. discriminate. Qed.

Lemma ltb_leb (a b : string) : String.ltb a b = true -> String.leb a b = true.
Proof.
  unfold String.ltb, String.leb. destruct (String.compare a b); congruence.
Qed.

Lemma not_ltb_leb (a b : string) :
  String.ltb a b = false -> String.leb b a = true.
Proof.
  unfold String.ltb, String.leb. rewrite (String.compare_antisym b a).
  destruct (String.compare a b); simpl; congruence.
Qed.

Lemma leb_not_ltb (a b : string) :
  String.leb a b = true -> String.ltb b a = false.
Proof.
  unfold String.ltb, String.leb. rewrite (String.compare_antisym b a).
  destruct (String.compare a b); simpl; congruence.
Qed.

Lemma str_app_assoc (a b c : string) :
  ((a ++ b) ++ c = a ++ b ++ c)%string.
Proof. induction a as [|x a IH]; simpl; [reflexivity|]. now rewrite IH. Qed.

(** ** Sorting *)

Lemma keys_insert_item kv l :
  keys (insert_item kv l) = insert_key (fst kv) (keys l).
Proof.
  induction l as [|kv' r IH]; simpl; [reflexivity|].
  destruct (String.ltb (fst kv') (fst kv)); simpl; now rewrite ?IH.
Qed.

Lemma keys_sorted_items l : keys (sorted_items l) = sorted_keys (keys l).
Proof.
  induction l as [|kv r IH]; simpl; [reflexivity|].
  now rewrite keys_insert_item, IH.
Qed.

Lemma insert_key_hd k x l :
  String.ltb x k = true -> HdRel str_le x l -> HdRel str_le x (insert_key k l).
Proof.
  intros Hx H. destruct l as [|y r]; simpl.
  - constructor. now apply ltb_leb.
  - destruct (String.ltb y k).
    + constructor. now inversion H.
    + constructor. now apply ltb_leb.
Qed.

Lemma insert_key_Sorted k l : Sorted str_le l -> Sorted str_le (insert_key k l).
Proof.
  induction 1 as [|x r Hs IH Hd]; simpl.
  - repeat constructor.
  - destruct (String.ltb x k) eqn:E.
    + constructor; [assumption|]. now apply insert_key_hd.
    + constructor; [now constructor|]. constructor. now apply not_ltb_leb.
Qed.

Lemma sorted_keys_Sorted l : Sorted str_le (sorted_keys l).
Proof.
  induction l; simpl; [constructor|]. now apply insert_key_Sorted.
Qed.

Lemma sorted_keys_fixed l : Sorted str_le l -> sorted_keys l = l.
Proof.
  induction 1 as [|x r Hs IH Hd]; simpl; [reflexivity|].
  rewrite IH. destruct Hd as [|y r' Hxy]; simpl; [reflexivity|].
  now rewrite (leb_not_ltb _ _ Hxy).
Qed.

Lemma insert_item_perm kv l : Permutation (kv :: l) (insert_item kv l).
Proof.
  induction l as [|kv' r IH]; simpl; [reflexivity|].
  destruct (String.ltb (fst kv') (fst kv)); [|reflexivity].
  rewrite perm_swap. now constructor.
Qed.

Lemma sorted_items_perm l : Permutation l (sorted_items l).
Proof.
  induction l as [|kv r IH]; simpl; [reflexivity|].
  rewrite <- insert_item_perm. now constructor.
Qed.

Lemma sorted_items_wf d : dict_wf d -> dict_wf (sorted_items d).
Proof.
  unfold dict_wf, keys. intros H.
  eapply Permutation_NoDup; [|exact H].
  apply Permutation_map, sorted_items_perm.
Qed.

(** The sort is stable, so a lookup finds the same value after it. *)
Lemma dict_get_insert_item kv l k :
  dict_get (insert_item kv l) k =
  if fst kv =? k then Some (snd kv) else dict_get l k.
Proof.
  destruct kv as [k0 v0]; simpl.
  induction l as [|[k1 v1] r IH]; simpl; [reflexivity|].
  destruct (String.ltb k1 k0) eqn:E; simpl; [|reflexivity].
  rewrite IH. destruct (String.eqb_spec k0 k) as [->|]; [|reflexivity].
  apply ltb_neq in E. apply String.eqb_neq in E. now rewrite E.
Qed.

Lemma dict_get_sorted_items l k : dict_get (sorted_items l) k = dict_get l k.
Proof.
  induction l as [|[k0 v0] r IH]; simpl; [reflexivity|].
  rewrite dict_get_insert_item; simpl. now rewrite IH.
Qed.

(** ** Dictionaries *)

Lemma dict_get_set_same d k v : dict_get (dict_set d k v) k = Some v.
Proof.
  induction d as [|[k' v'] r IH]; simpl.
  - now rewrite String.eqb_refl.
  - destruct (k' =? k) eqn:E; simpl; now rewrite E.
Qed.

Lemma dict_get_set_other d k v k' :
  k <> k' -> dict_get (dict_set d k v) k' = dict_get d k'.
Proof.
  intros Hne. induction d as [|[k0 v0] r IH]; simpl.
  - apply String.eqb_neq in Hne. now rewrite Hne.
  - destruct (String.eqb_spec k0 k) as [->|]; simpl.
    + apply String.eqb_neq in Hne. now rewrite Hne.
    + now rewrite IH.
Qed.

Lemma dict_get_In d k v : dict_get d k = Some v -> In (k, v) d.
Proof.
  induction d as [|[k' v'] r IH]; simpl; [discriminate|].
  destruct (String.eqb_spec k' k) as [->|]; intros H.
  - left. congruence.
  - right. auto.
Qed.

Lemma dict_get_None d k : dict_get d k = None <-> ~ In k (keys d).
Proof.
  induction d as [|[k' v'] r IH]; simpl; [tauto|].
  destruct (String.eqb_spec k' k) as [->|]; [|tauto].
  split; [discriminate|]. tauto.
Qed.

Lemma dict_set_fresh d k v :
  ~ In k (keys d) -> dict_set d k v = d ++ [(k, v)].
Proof.
  induction d as [|[k' v'] r IH]; simpl; [reflexivity|]. intros H.
  destruct (String.eqb_spec k' k) as [->|]; [tauto|].
  rewrite IH; tauto.
Qed.

Lemma keys_dict_set d k v :
  keys (dict_set d k v) =
  match dict_get d k with Some _ => keys d | None => keys d ++ [k] end.
Proof.
  induction d as [|[k' v'] r IH]; simpl; [reflexivity|].
  destruct (String.eqb_spec k' k) as [->|]; simpl; [reflexivity|].
  rewrite IH. now destruct (dict_get r k).
Qed.

Lemma dict_set_wf d k v : dict_wf d -> dict_wf (dict_set d k v).
Proof.
  unfold dict_wf. rewrite keys_dict_set. intros H.
  destruct (dict_get d k) eqn:E; [assumption|].
  apply dict_get_None in E.
  apply NoDup_app; [assumption|repeat constructor; simpl; tauto|].
  intros x Hx [<-|[]]. tauto.
Qed.

Lemma dict_update_app acc l :
  NoDup (keys (acc ++ l)) -> dict_update acc l = acc ++ l.
Proof.
  unfold dict_update. revert acc.
  induction l as [|[k v] r IH]; intros acc H; simpl.
  - now rewrite app_nil_r.
  - assert (Hk : ~ In k (keys acc)).
    { unfold keys in *. rewrite map_app in H. simpl in H.
      apply NoDup_remove_2 in H. rewrite in_app_iff in H. tauto. }
    rewrite (dict_set_fresh _ _ _ Hk).
    replace (acc ++ (k, v) :: r) with ((acc ++ [(k, v)]) ++ r)
      by now rewrite <- app_assoc.
    apply IH. now rewrite <- app_assoc.
Qed.

(** [dict(items)] leaves a list of items with distinct keys as it is. *)
Lemma dict_of_items_wf l : dict_wf l -> dict_of_items l = l.
Proof. intros H. unfold dict_of_items. now rewrite dict_update_app. Qed.

Lemma dict_update_single d k v : dict_update d [(k, v)] = dict_set d k v.
Proof. reflexivity. Qed.

Lemma dict_set_set d k v v' : dict_set (dict_set d k v) k v' = dict_set d k v'.
Proof.
  induction d as [|[k0 v0] r IH]; simpl.
  - now rewrite String.eqb_refl.
  - destruct (k0 =? k) eqn:E; simpl; rewrite E; [reflexivity|now rewrite IH].
Qed.

Lemma distinct_NoDup l : distinct l = true -> NoDup l.
Proof.
  induction l as [|k r IH]; simpl; [constructor|].
  intros H. apply andb_prop in H as [Hk Hr]. constructor; [|auto].
  intros Hin. apply negb_true_iff in Hk.
  assert (existsb (String.eqb k) r = true); [|congruence].
  apply existsb_exists. exists k. now rewrite String.eqb_refl.
Qed.

(** ** The merge *)

Lemma merge_section_run section k v top http m :
  dict_get top "http" = Some (YMap http) ->
  dict_get http section = Some (YMap m) ->
  dict_wf m ->
  merge_section section [(k, v)] (YMap top) =
  Ok (YMap (dict_set top "http"
              (YMap (dict_set http section
                       (YMap (sorted_items (dict_set m k v))))))).
Proof.
  intros Htop Hsec Hwf. unfold merge_section. cbn [getitem].
  rewrite Htop. cbn [rbind getitem]. rewrite Hsec.
  cbn [rbind update_method setitem].
  rewrite dict_update_single, dict_of_items_wf; [reflexivity|].
  now apply sorted_items_wf, dict_set_wf.
Qed.

(** On a routing document the merge returns, and this is its result. *)
Lemma merge_run D s ip sch config top http routers services :
  routing_document config top http routers services ->
  merge D s ip sch config =
  Ok (YMap (dict_set top "http"
      (YMap (dict_set
               (dict_set http "routers"
                  (YMap (sorted_items
                           (dict_set routers s (router_definition s D)))))
               "services"
               (YMap (sorted_items
                        (dict_set services (fstr [s; "-svc"])
                           (service_definition sch ip)))))))).
Proof.
  intros (-> & Htop & Hr & Hs & Wr & Ws). unfold merge, router_entry.
  rewrite (merge_section_run _ _ _ _ _ _ Htop Hr Wr); simpl rbind.
  unfold service_entry.
  erewrite merge_section_run; [|apply dict_get_set_same| |exact Ws].
  - now rewrite dict_set_set.
  - rewrite dict_get_set_other; [exact Hs|discriminate].
Qed.

Lemma section_of_routers top http R S :
  section_of
    (YMap (dict_set top "http"
             (YMap (dict_set (dict_set http "routers" R) "services" S))))
    "routers" = Ok R.
Proof.
  unfold section_of; simpl. rewrite dict_get_set_same; simpl.
  rewrite dict_get_set_other by discriminate.
  now rewrite dict_get_set_same.
Qed.

Lemma section_of_services top http R S :
  section_of
    (YMap (dict_set top "http"
             (YMap (dict_set (dict_set http "routers" R) "services" S))))
    "services" = Ok S.
Proof.
  unfold section_of; simpl. rewrite dict_get_set_same; simpl.
  now rewrite dict_get_set_same.
Qed.

Lemma sorted_items_keys_fixed d :
  sorted_keys (keys (sorted_items d)) = keys (sorted_items d).
Proof.
  apply sorted_keys_fixed. rewrite keys_sorted_items. apply sorted_keys_Sorted.
Qed.

(** C1.  After the merge of a routing document, [http.routers] and
    [http.services] are both sorted by key: sorting their key lists
    changes nothing, and each key is at most the next.  From routers
    [{zeta: ...}] and service name [alpha] the router keys come out as
    [alpha, zeta]. *)
Theorem merge_sorts_routers_and_services D s ip sch config top http routers services :
  routing_document config top http routers services ->
  exists config' R S,
    merge D s ip sch config = Ok config' /\
    section_of config' "routers" = Ok (YMap R) /\
    section_of config' "services" = Ok (YMap S) /\
    sorted_keys (keys R) = keys R /\ Sorted str_le (keys R) /\
    sorted_keys (keys S) = keys S /\ Sorted str_le (keys S) /\
    (forall zeta_definition,
        routers = [("zeta", zeta_definition)] -> s = "alpha" ->
        keys R = ["alpha"; "zeta"]).
Proof.
  intros Hdoc. rewrite (merge_run D s ip sch _ _ _ _ _ Hdoc).
  eexists _, _, _. split; [reflexivity|].
  rewrite section_of_routers, section_of_services.
  repeat split; try reflexivity.
  - apply sorted_items_keys_fixed.
  - rewrite keys_sorted_items. apply sorted_keys_Sorted.
  - apply sorted_items_keys_fixed.
  - rewrite keys_sorted_items. apply sorted_keys_Sorted.
  - intros z -> ->. reflexivity.
Qed.

Lemma example_config_routing_document :
  routing_document example_config example_top example_http example_routers
    example_services.
Proof. repeat split; apply distinct_NoDup; reflexivity. Qed.

Lemma dict_get_merged d k v k' :
  dict_get (sorted_items (dict_set d k v)) k' =
  if k =? k' then Some v else dict_get d k'.
Proof.
  rewrite dict_get_sorted_items.
  destruct (String.eqb_spec k k') as [->|Hne].
  - apply dict_get_set_same.
  - now apply dict_get_set_other.
Qed.

Lemma In_keys_dict_get d k : In k (keys d) <-> dict_get d k <> None.
Proof.
  pose proof (dict_get_None d k) as H.
  destruct (dict_get d k); split; intros; try congruence.
  - destruct (in_dec string_dec k (keys d)); [assumption|].
    apply H in n. congruence.
  - exfalso. apply H; auto.
Qed.

Lemma merged_keeps_keys d k v k' :
  In k' (keys d) -> In k' (keys (sorted_items (dict_set d k v))).
Proof.
  rewrite !In_keys_dict_get, dict_get_merged.
  destruct (k =? k'); congruence.
Qed.

(** C9.  Whatever the scheme, the router stored under the service name has
    entry points [['https']], middlewares [['chain-no-auth']] and an empty
    [tls] mapping, and the routers mapping is the same for any other
    scheme; the scheme shows only in the [url] of the stored service. *)
Theorem router_entry_ignores_scheme D s ip sch config top http routers services :
  routing_document config top http routers services ->
  exists config' R S router,
    merge D s ip sch config = Ok config' /\
    section_of config' "routers" = Ok (YMap R) /\
    section_of config' "services" = Ok (YMap S) /\
    dict_get R s = Some router /\
    getitem router "entryPoints" = Ok (YSeq [YStr "https"]) /\
    getitem router "middlewares" = Ok (YSeq [YStr "chain-no-auth"]) /\
    getitem router "tls" = Ok (YMap []) /\
    (forall sch', exists config'',
        merge D s ip sch' config = Ok config'' /\
        section_of config'' "routers" = Ok (YMap R)) /\
    dict_get S (s ++ "-svc")%string =
    Some (YMap [("loadBalancer",
                 YMap [("servers",
                        YSeq [YMap [("url",
                                     YStr (sch ++ "://" ++ ip ++ "/")%string)]]);
                       ("passHostHeader", YBool true)])]).
Proof.
  intros Hdoc. rewrite (merge_run D s ip sch _ _ _ _ _ Hdoc).
  eexists _, _, _, (router_definition s D). split; [reflexivity|].
  rewrite section_of_routers, section_of_services.
  split; [reflexivity|]. split; [reflexivity|].
  split; [now rewrite dict_get_merged, String.eqb_refl|].
  do 3 (split; [reflexivity|]). split.
  - intros sch'. rewrite (merge_run D s ip sch' _ _ _ _ _ Hdoc).
    eexists. split; [reflexivity|]. now rewrite section_of_routers.
  - change (fstr [s; "-svc"]) with (s ++ "-svc")%string.
    rewrite dict_get_merged, String.eqb_refl. reflexivity.
Qed.

(** ** The access-control update *)

Lemma one_factor_split rules :
  existsb one_factor rules = true ->
  exists before rule after,
    rules = before ++ rule :: after /\
    existsb one_factor before = false /\ one_factor rule = true.
Proof.
  induction rules as [|r rest IH]; simpl; [discriminate|].
  destruct (one_factor r) eqn:E; simpl.
  - intros _. now exists [], r, rest.
  - intros H. destruct (IH H) as (b & x & a & -> & Hb & Hx).
    exists (r :: b), x, a. simpl. now rewrite E.
Qed.

Lemma access_rule_shape rule :
  access_rule rule = true ->
  exists d ds p,
    rule = YMap d /\ dict_get d "domain" = Some (YSeq ds) /\
    dict_get d "policy" = Some (YStr p).
Proof.
  destruct rule as [| | | | |d]; simpl; try discriminate.
  destruct (dict_get d "domain") as [[| | | |ds|]|] eqn:Hd; try discriminate.
  destruct (dict_get d "policy") as [[| | |p| |]|] eqn:Hp; try discriminate.
  intros _. now exists d, ds, p.
Qed.

(** A rule that does not match is stepped over. *)
Lemma scan_rules_skip sub rule rest :
  access_rule rule = true -> one_factor rule = false ->
  scan_rules sub (rule :: rest) =
  rbind (scan_rules sub rest) (fun found => Ok (option_map (cons rule) found)).
Proof.
  intros Hr Hn. apply access_rule_shape in Hr as (d & ds & p & -> & Hd & Hp).
  unfold one_factor in Hn. simpl in *. rewrite Hp in *. simpl in *.
  now rewrite Hn.
Qed.

Lemma scan_rules_app sub before l :
  forallb access_rule before = true -> existsb one_factor before = false ->
  scan_rules sub (before ++ l) =
  rbind (scan_rules sub l) (fun found => Ok (option_map (app before) found)).
Proof.
  induction before as [|r b IH]; intros Hw Hn.
  - simpl. destruct (scan_rules sub l) as [[x|]|]; reflexivity.
  - simpl in Hw, Hn. apply andb_prop in Hw as [Hr Hw].
    apply orb_false_elim in Hn as [Hr' Hn].
    rewrite <- app_comm_cons, scan_rules_skip, IH by assumption.
    destruct (scan_rules sub l) as [[x|]|]; reflexivity.
Qed.

(** The first matching rule gets the subdomain and the loop stops. *)
Lemma scan_rules_hit sub d ds after :
  one_factor (YMap d) = true -> dict_get d "domain" = Some (YSeq ds) ->
  scan_rules sub (YMap d :: after) =
  Ok (Some (YMap (dict_set d "domain" (YSeq (ds ++ [YStr sub]))) :: after)).
Proof.
  unfold one_factor. simpl. intros Hp Hd.
  destruct (dict_get d "policy") as [p|]; [|discriminate]. simpl in *.
  rewrite Hp, Hd. reflexivity.
Qed.

Lemma scan_rules_none sub rules :
  forallb access_rule rules = true -> existsb one_factor rules = false ->
  scan_rules sub rules = Ok None.
Proof.
  intros Hw Hn. rewrite <- (app_nil_r rules), scan_rules_app by assumption.
  reflexivity.
Qed.

Lemma update_access_control_run sub doc top ac rules rules' :
  access_document doc top ac rules ->
  update_rules sub (YSeq rules) = Ok (YSeq rules') ->
  update_access_control sub doc = Ok (with_rules top ac rules').
Proof.
  intros (-> & Hac & Hrules & _) Hup. unfold update_access_control.
  cbn [getitem]. rewrite Hac. cbn [rbind getitem]. rewrite Hrules.
  cbn [rbind]. rewrite Hup. reflexivity.
Qed.

(** The two cases of the update on a document of the data model. *)
Lemma update_access_control_cases sub doc top ac rules :
  access_document doc top ac rules ->
  (existsb one_factor rules = true ->
   exists before d ds after,
     rules = before ++ YMap d :: after /\
     existsb one_factor before = false /\
     one_factor (YMap d) = true /\
     dict_get d "domain" = Some (YSeq ds) /\
     update_access_control sub doc =
     Ok (with_rules top ac
           (before ++
            YMap (dict_set d "domain" (YSeq (ds ++ [YStr sub]))) :: after))) /\
  (existsb one_factor rules = false ->
   update_access_control sub doc =
   Ok (with_rules top ac
         (rules ++ [YMap [("domain", YSeq [YStr sub]);
                          ("policy", YStr "one_factor")]]))).
Proof.
  intros Hdoc. pose proof Hdoc as (_ & _ & _ & Hw). split; intros Hex.
  - destruct (one_factor_split _ Hex) as (b & r & a & -> & Hb & Hr).
    rewrite forallb_app in Hw. apply andb_prop in Hw as [Hwb Hwr].
    simpl in Hwr. apply andb_prop in Hwr as [Hwr _].
    apply access_rule_shape in Hwr as (d & ds & p & -> & Hd & Hp).
    exists b, d, ds, a. repeat split; try assumption.
    apply (update_access_control_run _ _ _ _ _ _ Hdoc).
    unfold update_rules.
    rewrite scan_rules_app, (scan_rules_hit _ _ _ _ Hr Hd) by assumption.
    reflexivity.
  - apply (update_access_control_run _ _ _ _ _ _ Hdoc).
    unfold update_rules. rewrite scan_rules_none by assumption. reflexivity.
Qed.

(** ** Running the update twice *)

Lemma merge_routing_document D s ip sch config top http routers services :
  routing_document config top http routers services ->
  exists config' top' http' R S,
    merge D s ip sch config = Ok config' /\
    routing_document config' top' http' R S /\
    R = sorted_items (dict_set routers s (router_definition s D)) /\
    S = sorted_items
          (dict_set services (fstr [s; "-svc"]) (service_definition sch ip)).
Proof.
  intros Hdoc. rewrite (merge_run D s ip sch _ _ _ _ _ Hdoc).
  destruct Hdoc as (_ & _ & _ & _ & Wr & Ws).
  eexists _, _, _, _, _. split; [reflexivity|]. split; [|split; reflexivity].
  split; [reflexivity|]. split; [apply dict_get_set_same|].
  split; [|split; [apply dict_get_set_same|]].
  - rewrite dict_get_set_other by discriminate. apply dict_get_set_same.
  - split; now apply sorted_items_wf, dict_set_wf.
Qed.

Lemma keys_merged_again d k v v' :
  keys (sorted_items (dict_set (sorted_items (dict_set d k v)) k v')) =
  keys (sorted_items (dict_set d k v)).
Proof.
  rewrite keys_sorted_items, keys_dict_set, dict_get_merged, String.eqb_refl.
  apply sorted_items_keys_fixed.
Qed.

Lemma with_rules_document top ac rules :
  forallb access_rule rules = true ->
  access_document (with_rules top ac rules)
    (dict_set top "access_control" (YMap (dict_set ac "rules" (YSeq rules))))
    (dict_set ac "rules" (YSeq rules)) rules.
Proof.
  intros Hw. split; [reflexivity|]. now rewrite !dict_get_set_same.
Qed.

Lemma with_rules_again top ac rules rules' :
  with_rules
    (dict_set top "access_control" (YMap (dict_set ac "rules" (YSeq rules))))
    (dict_set ac "rules" (YSeq rules)) rules' =
  with_rules top ac rules'.
Proof. unfold with_rules. now rewrite !dict_set_set. Qed.

Lemma rules_of_with_rules top ac rules :
  rules_of (with_rules top ac rules) = Ok (YSeq rules).
Proof.
  unfold rules_of, with_rules. cbn [getitem].
  rewrite dict_get_set_same. cbn [rbind getitem].
  now rewrite dict_get_set_same.
Qed.

Lemma find_one_factor_app before rule after :
  existsb one_factor before = false -> one_factor rule = true ->
  find one_factor (before ++ rule :: after) = Some rule.
Proof.
  induction before as [|r b IH]; simpl; intros Hb Hr.
  - now rewrite Hr.
  - apply orb_false_elim in Hb as [Hr' Hb]. rewrite Hr'. auto.
Qed.

(** The update on a rule list whose first [one_factor] rule is known. *)
Lemma update_on_split sub top ac before d ds after :
  forallb access_rule (before ++ YMap d :: after) = true ->
  existsb one_factor before = false ->
  one_factor (YMap d) = true ->
  dict_get d "domain" = Some (YSeq ds) ->
  update_access_control sub (with_rules top ac (before ++ YMap d :: after)) =
  Ok (with_rules top ac
        (before ++ YMap (dict_set d "domain" (YSeq (ds ++ [YStr sub]))) :: after)).
Proof.
  intros Hw Hb Hr Hd.
  rewrite (update_access_control_run sub _ _ _ _
             (before ++ YMap (dict_set d "domain" (YSeq (ds ++ [YStr sub]))) :: after)
             (with_rules_document top ac _ Hw)).
  - now rewrite with_rules_again.
  - rewrite forallb_app in Hw. apply andb_prop in Hw as [Hwb _].
    unfold update_rules.
    rewrite scan_rules_app, (scan_rules_hit _ _ _ _ Hr Hd) by assumption.
    reflexivity.
Qed.

Lemma access_rule_after_append d ds x :
  access_rule (YMap d) = true ->
  access_rule (YMap (dict_set d "domain" (YSeq (ds ++ [x])))) = true.
Proof.
  intros H. apply access_rule_shape in H as (d' & ds' & p & E & _ & Hp).
  injection E as <-. unfold access_rule.
  rewrite dict_get_set_same, dict_get_set_other by discriminate.
  now rewrite Hp.
Qed.

Lemma one_factor_after_append d v :
  one_factor (YMap (dict_set d "domain" v)) = one_factor (YMap d).
Proof.
  unfold one_factor, getitem.
  now rewrite dict_get_set_other by discriminate.
Qed.

(** One update leaves a rule list whose first [one_factor] rule ends with
    the subdomain. *)
Lemma update_once_shape sub doc top ac rules :
  access_document doc top ac rules ->
  exists before d ds after,
    update_access_control sub doc =
    Ok (with_rules top ac (before ++ YMap d :: after)) /\
    forallb access_rule (before ++ YMap d :: after) = true /\
    existsb one_factor before = false /\
    one_factor (YMap d) = true /\
    dict_get d "domain" = Some (YSeq (ds ++ [YStr sub])).
Proof.
  intros Hdoc.
  destruct (update_access_control_cases sub doc top ac rules Hdoc)
    as [Hyes Hno].
  pose proof Hdoc as (_ & _ & _ & Hw).
  destruct (existsb one_factor rules) eqn:Hex.
  - destruct (Hyes eq_refl) as (b & d & ds & a & -> & Hb & Hr & Hd & Hup).
    exists b, (dict_set d "domain" (YSeq (ds ++ [YStr sub]))), ds, a.
    split; [exact Hup|]. rewrite forallb_app in *.
    apply andb_prop in Hw as [Hwb Hwr]. simpl in Hwr.
    apply andb_prop in Hwr as [Hwr Hwa].
    rewrite Hwb. cbn [forallb andb].
    rewrite access_rule_after_append, Hwa by assumption.
    rewrite one_factor_after_append, dict_get_set_same. auto.
  - exists rules, [("domain", YSeq [YStr sub]); ("policy", YStr "one_factor")],
      [], [].
    split; [exact (Hno eq_refl)|]. rewrite forallb_app, Hw. auto.
Qed.

Lemma section_of_routing_document config top http routers services :
  routing_document config top http routers services ->
  section_of config "routers" = Ok (YMap routers) /\
  section_of config "services" = Ok (YMap services).
Proof.
  intros (-> & Htop & Hr & Hs & _). unfold section_of. cbn [getitem].
  rewrite Htop. cbn [rbind getitem]. now rewrite Hr, Hs.
Qed.

(** C7.  A second update with the same service name keeps the key sets of
    routers and services and stores the second run's definitions in place
    of the first run's; on the access-control document it appends the
    subdomain once more to the same rule, so the rule's domain list ends
    with the subdomain twice and the document differs from the one after
    the first update. *)
Theorem update_twice_overwrites_and_duplicates
  D s ip1 sch1 ip2 sch2 config top http routers services doc atop ac rules :
  routing_document config top http routers services ->
  access_document doc atop ac rules ->
  exists config1 config2 R1 S1 R2 S2 doc1 doc2 rules1 rules2 ds,
    merge D s ip1 sch1 config = Ok config1 /\
    merge D s ip2 sch2 config1 = Ok config2 /\
    section_of config1 "routers" = Ok (YMap R1) /\
    section_of config1 "services" = Ok (YMap S1) /\
    section_of config2 "routers" = Ok (YMap R2) /\
    section_of config2 "services" = Ok (YMap S2) /\
    keys R2 = keys R1 /\ keys S2 = keys S1 /\
    dict_get S1 (s ++ "-svc")%string = Some (service_definition sch1 ip1) /\
    dict_get S2 (s ++ "-svc")%string = Some (service_definition sch2 ip2) /\
    dict_get R2 s = Some (router_definition s D) /\
    update_access_control (new_subdomain s D) doc = Ok doc1 /\
    update_access_control (new_subdomain s D) doc1 = Ok doc2 /\
    rules_of doc1 = Ok (YSeq rules1) /\
    rules_of doc2 = Ok (YSeq rules2) /\
    first_one_factor_domain rules1 =
      Some (YSeq (ds ++ [YStr (new_subdomain s D)])) /\
    first_one_factor_domain rules2 =
      Some (YSeq (ds ++ [YStr (new_subdomain s D); YStr (new_subdomain s D)])) /\
    length rules2 = length rules1 /\
    doc2 <> doc1.
Proof.
  intros Hcfg Hdoc. set (sub := new_subdomain s D).
  destruct (merge_routing_document D s ip1 sch1 _ _ _ _ _ Hcfg)
    as (config1 & top1 & http1 & R1 & S1 & Hm1 & Hcfg1 & HR1 & HS1).
  destruct (merge_routing_document D s ip2 sch2 _ _ _ _ _ Hcfg1)
    as (config2 & top2 & http2 & R2 & S2 & Hm2 & Hcfg2 & HR2 & HS2).
  destruct (section_of_routing_document _ _ _ _ _ Hcfg1) as [Hr1 Hs1].
  destruct (section_of_routing_document _ _ _ _ _ Hcfg2) as [Hr2 Hs2].
  destruct (update_once_shape sub _ _ _ _ Hdoc)
    as (b & d & ds & a & Hu1 & Hw & Hb & Hr & Hd).
  pose proof (update_on_split sub atop ac _ _ _ _ Hw Hb Hr Hd) as Hu2.
  set (d2 := dict_set d "domain" (YSeq ((ds ++ [YStr sub]) ++ [YStr sub]))) in *.
  assert (Hf1 : first_one_factor_domain (b ++ YMap d :: a) =
                Some (YSeq (ds ++ [YStr sub]))).
  { unfold first_one_factor_domain. now rewrite find_one_factor_app. }
  assert (Hf2 : first_one_factor_domain (b ++ YMap d2 :: a) =
                Some (YSeq (ds ++ [YStr sub; YStr sub]))).
  { unfold first_one_factor_domain.
    rewrite find_one_factor_app; [|assumption|].
    - unfold d2. now rewrite dict_get_set_same, <- app_assoc.
    - unfold d2. now rewrite one_factor_after_append. }
  exists config1, config2, R1, S1, R2, S2.
  exists (with_rules atop ac (b ++ YMap d :: a)).
  exists (with_rules atop ac (b ++ YMap d2 :: a)).
  exists (b ++ YMap d :: a), (b ++ YMap d2 :: a), ds.
  repeat (split; [assumption|]).
  split; [subst; apply keys_merged_again|].
  split; [subst; apply keys_merged_again|].
  split; [subst; now rewrite dict_get_merged, String.eqb_refl|].
  split; [subst; now rewrite dict_get_merged, String.eqb_refl|].
  split; [subst; now rewrite dict_get_merged, String.eqb_refl|].
  repeat (split; [assumption|]).
  split; [apply rules_of_with_rules|]. split; [apply rules_of_with_rules|].
  repeat (split; [assumption|]).
  split; [now rewrite !length_app|].
  intros Heq. apply (f_equal rules_of) in Heq.
  rewrite !rules_of_with_rules in Heq. injection Heq as Heq.
  rewrite Heq, Hf1 in Hf2. injection Hf2 as Hf2.
  apply (f_equal (@length yaml)) in Hf2. rewrite !length_app in Hf2.
  simpl in Hf2. lia.
Qed.

(** ** The process *)

Section Runs.
Context {content : Type} {codec : YamlCodec content}.
Variable w : world.

Lemma bind_Done {A B} (m : M content A) (k : A -> M content B) st a st' :
  m st = (Done a, st') -> bind m k st = k a st'.
Proof. unfold bind. now intros ->. Qed.

Lemma bind_SysExit {A B} (m : M content A) (k : A -> M content B) st c st' :
  m st = (SysExit c, st') -> bind m k st = (SysExit c, st').
Proof. unfold bind. now intros ->. Qed.

Lemma truthy_false v : truthy v = false <-> missing_or_empty v.
Proof.
  unfold missing_or_empty. destruct v as [s|]; simpl.
  - destruct (String.eqb_spec s EmptyString); simpl; split; intros H;
      try discriminate; try (subst; auto; fail).
    destruct H as [H|H]; [discriminate|]. congruence.
  - split; auto.
Qed.

Lemma settings_present_false :
  settings_present w = false <->
  missing_or_empty (CLOUDFLARE_API_TOKEN w) \/
  missing_or_empty (CLOUDFLARE_ZONE_ID w) \/
  missing_or_empty (DOMAIN_NAME w).
Proof.
  unfold settings_present. rewrite <- !truthy_false.
  destruct (truthy (CLOUDFLARE_API_TOKEN w)), (truthy (CLOUDFLARE_ZONE_ID w)),
    (truthy (DOMAIN_NAME w)); simpl; intuition discriminate.
Qed.

Lemma check_environment_run (st : state content) :
  check_environment w st =
  if settings_present w
  then (Done (the (CLOUDFLARE_API_TOKEN w), the (CLOUDFLARE_ZONE_ID w),
              the (DOMAIN_NAME w)), st)
  else (SysExit 1, say env_diagnostic st).
Proof.
  unfold check_environment, settings_present.
  destruct (truthy (CLOUDFLARE_API_TOKEN w)), (truthy (CLOUDFLARE_ZONE_ID w)),
    (truthy (DOMAIN_NAME w)); reflexivity.
Qed.

Lemma check_usage_run (st : state content) :
  check_usage w st =
  if (length (sys_argv w) =? 2)%nat
  then (Done (nth 1 (sys_argv w) EmptyString), st)
  else (SysExit 1, say usage_diagnostic st).
Proof.
  unfold check_usage. destruct (length (sys_argv w) =? 2)%nat; reflexivity.
Qed.

Lemma load_file_run path c doc (st : state content) :
  files st path = Some c -> yaml_safe_load c = Some doc ->
  load_file path st = (Done doc, st).
Proof. unfold load_file. now intros -> ->. Qed.

Lemma load_and_backup_run config_file c config (st : state content) :
  files st config_file = Some c -> yaml_safe_load c = Some config ->
  load_and_backup w config_file st = (Done (config, now w), backed_up w config st).
Proof.
  intros Hf Hl. unfold load_and_backup.
  rewrite (bind_Done _ _ _ _ _ (load_file_run _ _ _ _ Hf Hl)). reflexivity.
Qed.

Lemma read_inputs_run s ip answer rest (st : state content) :
  stdin st = s :: ip :: answer :: rest ->
  read_inputs st =
  if valid_scheme (lower (strip answer))
  then (Done (s, ip, lower (strip answer)), answered s st)
  else (SysExit 1, say scheme_diagnostic (answered s st)).
Proof.
  intros Hin. unfold read_inputs, bind, input at 1. rewrite Hin.
  unfold input at 1. cbn [stdin asked tl]. rewrite Hin. cbn [tl].
  unfold input. cbn [stdin asked tl]. rewrite Hin. cbn [tl].
  destruct (valid_scheme (lower (strip answer))); reflexivity.
Qed.

Lemma merge_and_save_run config_file D s ip sch config config' (st : state content) :
  merge D s ip sch config = Ok config' ->
  merge_and_save config_file D s ip sch config st =
  (Done tt, saved config_file config' st).
Proof. intros H. unfold merge_and_save, bind, lift. now rewrite H. Qed.

Lemma add_cname_record_to_cloudflare_run token zone name target resp
  (st : state content) :
  requests_post w (cname_request token zone name target) = Some resp ->
  add_cname_record_to_cloudflare w token zone name target st =
  (Done tt,
   say (cname_message name target resp)
     (sent (cname_request token zone name target) st)).
Proof.
  intros H. unfold add_cname_record_to_cloudflare, bind, post. now rewrite H.
Qed.

Lemma update_authelia_config_run sub c adoc adoc' (st : state content) :
  files st authelia_config_path = Some c ->
  yaml_safe_load c = Some adoc ->
  update_access_control sub adoc = Ok adoc' ->
  update_authelia_config (now w) authelia_config_path sub st =
  (Done tt,
   wrote authelia_config_path adoc'
     (say (fstr ["Backup of the original Authelia config file saved as ";
                 authelia_backup_file_of (now w)])
        (wrote (authelia_backup_file_of (now w)) adoc
           (made authelia_backup_dir st)))).
Proof.
  intros Hf Hl Hu. unfold update_authelia_config, bind.
  cbn [makedirs]. unfold load_file. cbn [files made]. rewrite Hf, Hl.
  cbn [dump_file print lift]. rewrite Hu. reflexivity.
Qed.

(** A run in which every step succeeds. *)
Lemma main_run prog config_file c config s ip answer rest config' resp
  ac adoc adoc' (st : state content) :
  settings_present w = true ->
  sys_argv w = [prog; config_file] ->
  files st config_file = Some c ->
  yaml_safe_load c = Some config ->
  stdin st = s :: ip :: answer :: rest ->
  valid_scheme (lower (strip answer)) = true ->
  merge (the (DOMAIN_NAME w)) s ip (lower (strip answer)) config = Ok config' ->
  requests_post w
    (cname_request (the (CLOUDFLARE_API_TOKEN w)) (the (CLOUDFLARE_ZONE_ID w))
       (fstr [s; "."; the (DOMAIN_NAME w)]) (the (DOMAIN_NAME w))) = Some resp ->
  files (saved config_file config' (answered s (backed_up w config st)))
    authelia_config_path = Some ac ->
  yaml_safe_load ac = Some adoc ->
  update_access_control (new_subdomain s (the (DOMAIN_NAME w))) adoc = Ok adoc' ->
  main w st =
  (Done tt,
   authelia_updated w s adoc adoc'
     (registered w s resp
        (saved config_file config' (answered s (backed_up w config st))))).
Proof.
  intros Hset Hargv Hf Hl Hin Hsch Hm Hpost Haf Hal Hup. unfold main.
  pose proof (check_environment_run st) as E. rewrite Hset in E.
  rewrite (bind_Done _ _ _ _ _ E). clear E.
  pose proof (check_usage_run st) as U. rewrite Hargv in U. cbn in U.
  rewrite (bind_Done _ _ _ _ _ U). clear U.
  rewrite (bind_Done _ _ _ _ _ (load_and_backup_run _ _ _ _ Hf Hl)).
  assert (Hin' : stdin (backed_up w config st) = s :: ip :: answer :: rest)
    by exact Hin.
  pose proof (read_inputs_run _ _ _ _ _ Hin') as R. rewrite Hsch in R.
  rewrite (bind_Done _ _ _ _ _ R). clear R.
  rewrite (bind_Done _ _ _ _ _ (merge_and_save_run config_file _ _ _ _ _ _ _ Hm)).
  unfold publish.
  rewrite (bind_Done _ _ _ _ _
             (add_cname_record_to_cloudflare_run _ _ _ _ _ _ Hpost)).
  assert (Haf' : files
            (say (cname_message (fstr [s; "."; the (DOMAIN_NAME w)])
                    (the (DOMAIN_NAME w)) resp)
               (sent (cname_request (the (CLOUDFLARE_API_TOKEN w))
                        (the (CLOUDFLARE_ZONE_ID w))
                        (fstr [s; "."; the (DOMAIN_NAME w)])
                        (the (DOMAIN_NAME w)))
                  (saved config_file config'
                     (answered s (backed_up w config st)))))
            authelia_config_path = Some ac) by exact Haf.
  rewrite (bind_Done _ _ _ _ _
             (update_authelia_config_run _ _ _ _ _ Haf' Hal Hup)).
  reflexivity.
Qed.

(** Up to the saved routing document nothing depends on the network or on
    the access-control document. *)
Lemma main_reaches_publish prog config_file c config s ip answer rest config'
  (st : state content) :
  settings_present w = true ->
  sys_argv w = [prog; config_file] ->
  files st config_file = Some c ->
  yaml_safe_load c = Some config ->
  stdin st = s :: ip :: answer :: rest ->
  valid_scheme (lower (strip answer)) = true ->
  merge (the (DOMAIN_NAME w)) s ip (lower (strip answer)) config = Ok config' ->
  main w st =
  publish w (now w) (the (CLOUDFLARE_API_TOKEN w)) (the (CLOUDFLARE_ZONE_ID w))
    (the (DOMAIN_NAME w)) s
    (saved config_file config' (answered s (backed_up w config st))).
Proof.
  intros Hset Hargv Hf Hl Hin Hsch Hm. unfold main.
  pose proof (check_environment_run st) as E. rewrite Hset in E.
  rewrite (bind_Done _ _ _ _ _ E). clear E.
  pose proof (check_usage_run st) as U. rewrite Hargv in U. cbn in U.
  rewrite (bind_Done _ _ _ _ _ U). clear U.
  rewrite (bind_Done _ _ _ _ _ (load_and_backup_run _ _ _ _ Hf Hl)).
  assert (Hin' : stdin (backed_up w config st) = s :: ip :: answer :: rest)
    by exact Hin.
  pose proof (read_inputs_run _ _ _ _ _ Hin') as R. rewrite Hsch in R.
  rewrite (bind_Done _ _ _ _ _ R). clear R.
  now rewrite (bind_Done _ _ _ _ _
                 (merge_and_save_run config_file _ _ _ _ _ _ _ Hm)).
Qed.

Lemma main_invalid_scheme prog config_file c config s ip answer rest
  (st : state content) :
  settings_present w = true ->
  sys_argv w = [prog; config_file] ->
  files st config_file = Some c ->
  yaml_safe_load c = Some config ->
  stdin st = s :: ip :: answer :: rest ->
  valid_scheme (lower (strip answer)) = false ->
  main w st =
  (SysExit 1, say scheme_diagnostic (answered s (backed_up w config st))).
Proof.
  intros Hset Hargv Hf Hl Hin Hsch. unfold main.
  pose proof (check_environment_run st) as E. rewrite Hset in E.
  rewrite (bind_Done _ _ _ _ _ E). clear E.
  pose proof (check_usage_run st) as U. rewrite Hargv in U. cbn in U.
  rewrite (bind_Done _ _ _ _ _ U). clear U.
  rewrite (bind_Done _ _ _ _ _ (load_and_backup_run _ _ _ _ Hf Hl)).
  assert (Hin' : stdin (backed_up w config st) = s :: ip :: answer :: rest)
    by exact Hin.
  pose proof (read_inputs_run _ _ _ _ _ Hin') as R. rewrite Hsch in R.
  now rewrite (bind_SysExit _ _ _ _ _ R).
Qed.

Lemma valid_scheme_iff scheme :
  valid_scheme scheme = true <-> scheme = "http" \/ scheme = "https".
Proof.
  unfold valid_scheme. cbn [existsb]. rewrite orb_false_r, orb_true_iff.
  now rewrite !String.eqb_eq.
Qed.

Lemma backup_file_not_authelia ts :
  (backup_file_of ts =? authelia_config_path) = false.
Proof. reflexivity. Qed.

Lemma backup_file_not_authelia_backup ts :
  (backup_file_of ts =? authelia_backup_file_of ts) = false.
Proof. reflexivity. Qed.

Lemma cname_message_cases name target resp :
  (status_code resp = 200%Z \/ status_code resp = 201%Z ->
   cname_message name target resp =
   ("Successfully added CNAME record: " ++ name ++ " -> " ++ target)%string) /\
  (status_code resp = 409%Z ->
   cname_message name target resp =
   ("CNAME record already exists: " ++ name ++ " -> " ++ target)%string) /\
  (status_code resp <> 200%Z -> status_code resp <> 201%Z ->
   status_code resp <> 409%Z ->
   cname_message name target resp =
   ("Failed to add CNAME record: " ++ str_of_int (status_code resp) ++ " - "
    ++ text resp)%string).
Proof.
  unfold cname_message. cbn [existsb]. repeat split.
  - intros [H|H]; rewrite H; reflexivity.
  - intros H; rewrite H; reflexivity.
  - intros H1 H2 H3. apply Z.eqb_neq in H1, H2, H3.
    rewrite H1, H2, H3. reflexivity.
Qed.

End Runs.

(** ** The claims about a run *)

Section Claims.
Context {content : Type} {codec : YamlCodec content}.
Variable w : world.

(** C4.  When one of the three settings is missing or empty, or the
    command line does not consist of the script name and exactly one
    argument, the run prints a diagnostic and exits with code 1; no file
    is written, no directory made, no request sent and no input read. *)
Theorem missing_setting_or_argument_exits_1 (st : state content) :
  missing_or_empty (CLOUDFLARE_API_TOKEN w) \/
  missing_or_empty (CLOUDFLARE_ZONE_ID w) \/
  missing_or_empty (DOMAIN_NAME w) \/
  length (sys_argv w) <> 2%nat ->
  exists diagnostic,
    main w st = (SysExit 1, say diagnostic st) /\
    (diagnostic = env_diagnostic \/ diagnostic = usage_diagnostic) /\
    exit_code (fst (main w st)) = 1%Z /\
    stdout (snd (main w st)) = stdout st ++ [diagnostic] /\
    files (snd (main w st)) = files st /\
    dirs (snd (main w st)) = dirs st /\
    posted (snd (main w st)) = posted st /\
    stdin (snd (main w st)) = stdin st.
Proof.
  intros H.
  assert (Hcases : settings_present w = false \/
                   settings_present w = true /\
                   (length (sys_argv w) =? 2)%nat = false).
  { destruct (settings_present w) eqn:E; [|now left].
    right. split; [reflexivity|]. apply Nat.eqb_neq.
    destruct H as [H|[H|[H|H]]]; [| | |exact H];
      exfalso; pose proof (proj2 (settings_present_false w)) as F;
      rewrite F in E; auto; discriminate. }
  destruct Hcases as [E|[E U]].
  - exists env_diagnostic.
    assert (Hm : main w st = (SysExit 1, say env_diagnostic st)).
    { unfold main. pose proof (check_environment_run w st) as R.
      rewrite E in R. now rewrite (bind_SysExit _ _ _ _ _ R). }
    rewrite Hm. repeat split. now left.
  - exists usage_diagnostic.
    assert (Hm : main w st = (SysExit 1, say usage_diagnostic st)).
    { unfold main. pose proof (check_environment_run w st) as R.
      rewrite E in R. rewrite (bind_Done _ _ _ _ _ R).
      pose proof (check_usage_run w st) as R'. rewrite U in R'.
      now rewrite (bind_SysExit _ _ _ _ _ R'). }
    rewrite Hm. repeat split. now right.
Qed.

(** C3.  Whatever response the DNS API gives, the call returns normally
    after printing one message: the success message for status 200 or
    201, the already-exists message for 409, and otherwise the failure
    message with the status code and the response body.  The run goes on
    to the access-control update, which is written, and ends with exit
    code 0. *)
Theorem dns_response_never_stops_the_run
  prog config_file c config s ip answer rest config' resp ac adoc adoc'
  (st : state content) :
  settings_present w = true ->
  sys_argv w = [prog; config_file] ->
  files st config_file = Some c ->
  yaml_safe_load c = Some config ->
  stdin st = s :: ip :: answer :: rest ->
  valid_scheme (lower (strip answer)) = true ->
  merge (the (DOMAIN_NAME w)) s ip (lower (strip answer)) config = Ok config' ->
  let name := (s ++ "." ++ the (DOMAIN_NAME w))%string in
  let target := the (DOMAIN_NAME w) in
  let req := cname_request (the (CLOUDFLARE_API_TOKEN w))
               (the (CLOUDFLARE_ZONE_ID w)) name target in
  let st1 := saved config_file config' (answered s (backed_up w config st)) in
  requests_post w req = Some resp ->
  files st1 authelia_config_path = Some ac ->
  yaml_safe_load ac = Some adoc ->
  update_access_control (new_subdomain s (the (DOMAIN_NAME w))) adoc = Ok adoc' ->
  exists message st2 st3,
    add_cname_record_to_cloudflare w (the (CLOUDFLARE_API_TOKEN w))
      (the (CLOUDFLARE_ZONE_ID w)) name target st1 = (Done tt, st2) /\
    stdout st2 = stdout st1 ++ [message] /\
    (status_code resp = 200%Z \/ status_code resp = 201%Z ->
     message =
     ("Successfully added CNAME record: " ++ name ++ " -> " ++ target)%string) /\
    (status_code resp = 409%Z ->
     message =
     ("CNAME record already exists: " ++ name ++ " -> " ++ target)%string) /\
    (status_code resp <> 200%Z -> status_code resp <> 201%Z ->
     status_code resp <> 409%Z ->
     message =
     ("Failed to add CNAME record: " ++ str_of_int (status_code resp)
      ++ " - " ++ text resp)%string) /\
    main w st = (Done tt, st3) /\
    exit_code (fst (main w st)) = 0%Z /\
    st3 = authelia_updated w s adoc adoc' st2 /\
    files st3 authelia_config_path = Some (yaml_dump adoc').
Proof.
  intros Hset Hargv Hf Hl Hin Hsch Hm name target req st1 Hpost Haf Hal Hup.
  pose proof (main_run w _ _ _ _ _ _ _ _ _ _ _ _ _ _
                Hset Hargv Hf Hl Hin Hsch Hm Hpost Haf Hal Hup) as Hrun.
  destruct (cname_message_cases name target resp) as (M1 & M2 & M3).
  exists (cname_message name target resp), (registered w s resp st1),
    (authelia_updated w s adoc adoc' (registered w s resp st1)).
  split; [exact (add_cname_record_to_cloudflare_run w _ _ _ _ _ _ Hpost)|].
  split; [reflexivity|]. split; [exact M1|]. split; [exact M2|].
  split; [exact M3|]. split; [exact Hrun|]. split; [now rewrite Hrun|].
  split; [reflexivity|].
  cbn [authelia_updated say wrote files]. unfold write_content.
  now rewrite String.eqb_refl.
Qed.

End Claims.

(** ** The theorems at work on the example run *)

Lemma merge_sorts_routers_and_services_witness :
  routing_document example_config example_top example_http example_routers
    example_services /\
  exists config' R,
    merge "example.com" "alpha" "10.0.0.5" "https" example_config = Ok config' /\
    section_of config' "routers" = Ok (YMap R) /\
    keys R = ["alpha"; "zeta"].
Proof.
  assert (Hdoc : routing_document example_config example_top example_http
                   example_routers example_services)
    by (repeat split; apply distinct_NoDup; reflexivity).
  split; [exact Hdoc|].
  destruct (merge_sorts_routers_and_services
              "example.com" "alpha" "10.0.0.5" "https" _ _ _ _ _ Hdoc)
    as (config' & R & S & Hm & Hr & _ & _ & _ & _ & _ & Hz).
  exists config', R. repeat split; try assumption.
  exact (Hz _ eq_refl eq_refl).
Defined.

Lemma router_entry_ignores_scheme_witness :
  exists config' R router,
    merge "example.com" "alpha" "10.0.0.5" "http" example_config = Ok config' /\
    section_of config' "routers" = Ok (YMap R) /\
    dict_get R "alpha" = Some router /\
    getitem router "entryPoints" = Ok (YSeq [YStr "https"]).
Proof.
  assert (Hdoc : routing_document example_config example_top example_http
                   example_routers example_services)
    by (repeat split; apply distinct_NoDup; reflexivity).
  destruct (router_entry_ignores_scheme
              "example.com" "alpha" "10.0.0.5" "http" _ _ _ _ _ Hdoc)
    as (config' & R & S & router & Hm & Hr & _ & Hg & He & _).
  exists config', R, router. repeat split; assumption.
Defined.

Lemma update_twice_overwrites_and_duplicates_witness :
  exists doc1 doc2 rules2 ds,
    update_access_control "alpha.example.com" example_authelia = Ok doc1 /\
    update_access_control "alpha.example.com" doc1 = Ok doc2 /\
    rules_of doc2 = Ok (YSeq rules2) /\
    first_one_factor_domain rules2 =
      Some (YSeq (ds ++ [YStr "alpha.example.com"; YStr "alpha.example.com"])) /\
    doc2 <> doc1.
Proof.
  assert (Hcfg : routing_document example_config example_top example_http
                   example_routers example_services)
    by (repeat split; apply distinct_NoDup; reflexivity).
  assert (Hdoc : access_document example_authelia example_authelia_top
                   example_access_control example_rules)
    by (repeat split; reflexivity).
  destruct (update_twice_overwrites_and_duplicates
              "example.com" "alpha" "10.0.0.5" "http" "10.0.0.6" "https"
              _ _ _ _ _ _ _ _ _ Hcfg Hdoc)
    as (c1 & c2 & R1 & S1 & R2 & S2 & doc1 & doc2 & rules1 & rules2 & ds & H).
  exists doc1, doc2, rules2, ds.
  decompose [and] H. repeat split; assumption.
Defined.

Lemma missing_setting_or_argument_exits_1_witness :
  missing_or_empty (CLOUDFLARE_API_TOKEN bare_world) /\
  exit_code (fst (main bare_world (example_state example_answers))) = 1%Z /\
  files (snd (main bare_world (example_state example_answers))) =
  files (example_state example_answers).
Proof.
  assert (Hmiss : missing_or_empty (CLOUDFLARE_API_TOKEN bare_world))
    by (left; reflexivity).
  split; [exact Hmiss|].
  destruct (missing_setting_or_argument_exits_1 (codec := tree_codec) bare_world
              (example_state example_answers) (or_introl Hmiss))
    as (diagnostic & _ & _ & He & _ & Hf & _).
  split; assumption.
Defined.

Lemma dns_response_never_stops_the_run_witness :
  exists st3,
    main (example_world 500) (example_state example_answers) = (Done tt, st3) /\
    exit_code (fst (main (example_world 500) (example_state example_answers))) = 0%Z /\
    files st3 authelia_config_path = Some example_authelia_updated /\
    In "Failed to add CNAME record: 500 - {}" (stdout st3).
Proof.
  destruct (dns_response_never_stops_the_run (codec := tree_codec) (example_world 500)
              "update_traefik_and_cloudflare_authelia.py" "config.yml"
              example_config example_config "alpha" "10.0.0.5" " HTTPS " []
              example_merged {| status_code := 500; text := "{}" |}
              example_authelia example_authelia example_authelia_updated
              (example_state example_answers)
              eq_refl eq_refl eq_refl eq_refl eq_refl eq_refl eq_refl
              eq_refl eq_refl eq_refl eq_refl)
    as (message & st2 & st3 & _ & Hout & _ & _ & Hfail & Hrun & He & Hst & Hf).
  exists st3. repeat split; try assumption.
  rewrite Hst. cbn [authelia_updated say wrote made stdout]. rewrite Hout.
  rewrite (Hfail ltac:(discriminate) ltac:(discriminate) ltac:(discriminate)).
  rewrite !in_app_iff. left. left. right. left. reflexivity.
Defined.

(** * Further properties of the code *)

(** ** The merge on its own result *)

Lemma sorted_items_fixed l : Sorted str_le (keys l) -> sorted_items l = l.
Proof.
  induction l as [|kv r IH]; simpl; [reflexivity|]. intros H.
  inversion H as [|x y Hs Hd]; subst. rewrite (IH Hs).
  destruct r as [|kv' r']; simpl; [reflexivity|].
  inversion Hd as [|z w Hle]; subst. now rewrite (leb_not_ltb _ _ Hle).
Qed.

Lemma dict_set_same_value d k v : dict_get d k = Some v -> dict_set d k v = d.
Proof.
  induction d as [|[k' v'] r IH]; simpl; [discriminate|].
  destruct (k' =? k); intros H; [congruence|]. now rewrite IH.
Qed.

Lemma merged_again d k v :
  sorted_items (dict_set (sorted_items (dict_set d k v)) k v) =
  sorted_items (dict_set d k v).
Proof.
  rewrite (dict_set_same_value (sorted_items (dict_set d k v)) k v)
    by now rewrite dict_get_merged, String.eqb_refl.
  apply sorted_items_fixed. rewrite keys_sorted_items. apply sorted_keys_Sorted.
Qed.

(** X3.  On the routing document the merge is idempotent: merging the
    same service name, address and scheme into the merged document gives
    the merged document again. *)
Theorem merge_same_inputs_is_idempotent
  D s ip sch config top http routers services config' :
  routing_document config top http routers services ->
  merge D s ip sch config = Ok config' ->
  merge D s ip sch config' = Ok config'.
Proof.
  intros Hdoc Hm.
  destruct (merge_routing_document D s ip sch _ _ _ _ _ Hdoc)
    as (c1 & top1 & http1 & R & S & Hm1 & Hdoc1 & -> & ->).
  rewrite Hm in Hm1. injection Hm1 as <-.
  rewrite (merge_run D s ip sch _ _ _ _ _ Hdoc1), !merged_again.
  destruct Hdoc1 as (-> & Ht & Hr & Hs & _).
  rewrite (dict_set_same_value http1 "routers") by assumption.
  rewrite (dict_set_same_value http1 "services") by assumption.
  now rewrite (dict_set_same_value top1 "http") by assumption.
Qed.

Lemma merge_same_inputs_is_idempotent_witness :
  merge "example.com" "alpha" "10.0.0.5" "https" example_merged =
  Ok example_merged.
Proof.
  apply (merge_same_inputs_is_idempotent
           "example.com" "alpha" "10.0.0.5" "https"
           example_config example_top example_http example_routers
           example_services example_merged).
  - repeat split; apply distinct_NoDup; reflexivity.
  - reflexivity.
Defined.

(** ** The access-control update: the loop and the data model *)

Lemma scan_rules_step_over sub rule rest :
  skipped rule = true ->
  scan_rules sub (rule :: rest) =
  rbind (scan_rules sub rest) (fun found => Ok (option_map (cons rule) found)).
Proof.
  unfold skipped. cbn [scan_rules].
  destruct (getitem rule "policy") as [p|]; [|discriminate].
  cbn [rbind]. intros H. apply negb_true_iff in H. now rewrite H.
Qed.

Lemma scan_rules_None_iff sub rules :
  scan_rules sub rules = Ok None <-> forallb skipped rules = true.
Proof.
  induction rules as [|rule rest IH]; [simpl; tauto|].
  cbn [forallb]. rewrite andb_true_iff, <- IH. split.
  - cbn [scan_rules]. unfold skipped.
    destruct (getitem rule "policy") as [p|]; [|discriminate]. cbn [rbind].
    destruct (is_one_factor p).
    + destruct (getitem rule "domain") as [dm|]; [|discriminate]. cbn [rbind].
      destruct (append_method dm (YStr sub)) as [dm'|]; [|discriminate].
      cbn [rbind]. destruct (setitem rule "domain" dm'); discriminate.
    + destruct (scan_rules sub rest) as [[x|]|]; try discriminate. auto.
  - intros [Hs Hr]. rewrite (scan_rules_step_over _ _ _ Hs), Hr. reflexivity.
Qed.

Lemma scan_rules_Some_inv sub rules rules' :
  scan_rules sub rules = Ok (Some rules') ->
  exists before d ds after,
    rules = before ++ YMap d :: after /\
    forallb skipped before = true /\
    one_factor (YMap d) = true /\
    dict_get d "domain" = Some (YSeq ds) /\
    rules' = before ++ YMap (dict_set d "domain" (YSeq (ds ++ [YStr sub]))) :: after.
Proof.
  revert rules'. induction rules as [|rule rest IH]; intros rules';
    [discriminate|].
  cbn [scan_rules].
  destruct (getitem rule "policy") as [p|] eqn:Hp; [|discriminate].
  cbn [rbind]. destruct (is_one_factor p) eqn:Hof.
  - destruct (getitem rule "domain") as [dm|] eqn:Hd; [|discriminate].
    cbn [rbind]. destruct dm as [| | | |ds|]; try discriminate.
    cbn [append_method rbind].
    destruct rule as [| | | | |d]; try discriminate. cbn [setitem rbind].
    intros H. injection H as <-. exists [], d, ds, rest.
    repeat split.
    + unfold one_factor. now rewrite Hp.
    + cbn [getitem] in Hd. destruct (dict_get d "domain"); congruence.
  - destruct (scan_rules sub rest) as [[x|]|]; try discriminate.
    cbn [rbind option_map]. intros H. injection H as <-.
    destruct (IH x eq_refl) as (b & d & ds & a & -> & Hb & Hr & Hd & ->).
    exists (rule :: b), d, ds, a. repeat split; try assumption.
    cbn [forallb]. rewrite Hb. unfold skipped. now rewrite Hp, Hof.
Qed.

Lemma scan_rules_stops_at_first sub before d ds after :
  forallb skipped before = true ->
  one_factor (YMap d) = true ->
  dict_get d "domain" = Some (YSeq ds) ->
  scan_rules sub (before ++ YMap d :: after) =
  Ok (Some (before ++
            YMap (dict_set d "domain" (YSeq (ds ++ [YStr sub]))) :: after)).
Proof.
  intros Hb Hr Hd. induction before as [|r b IH].
  - apply (scan_rules_hit _ _ _ _ Hr Hd).
  - cbn [forallb] in Hb. apply andb_prop in Hb as [Hs Hb].
    rewrite <- app_comm_cons, (scan_rules_step_over _ _ _ Hs), (IH Hb).
    reflexivity.
Qed.

Lemma filter_none_one_factor rules :
  existsb one_factor rules = false -> filter one_factor rules = [].
Proof.
  induction rules as [|r rest IH]; simpl; [reflexivity|].
  destruct (one_factor r); simpl; [discriminate|]. auto.
Qed.

(** X7.  On a document of the data model the update returns a document of
    the data model again, and it never makes a second [one_factor] rule:
    afterwards there are as many [one_factor] rules as before, or exactly
    one if there was none. *)
Theorem update_access_control_keeps_the_data_model sub doc top ac rules :
  access_document doc top ac rules ->
  exists doc' top' ac' rules',
    update_access_control sub doc = Ok doc' /\
    access_document doc' top' ac' rules' /\
    length (filter one_factor rules') =
    Nat.max 1 (length (filter one_factor rules)).
Proof.
  intros Hdoc.
  destruct (update_access_control_cases sub doc top ac rules Hdoc)
    as [Hyes Hno].
  pose proof Hdoc as (_ & _ & _ & Hw).
  destruct (existsb one_factor rules) eqn:Hex.
  - destruct (Hyes eq_refl) as (b & d & ds & a & -> & Hb & Hr & Hd & Hup).
    eexists _, _, _, _. split; [exact Hup|]. split.
    + apply with_rules_document. rewrite forallb_app in *.
      apply andb_prop in Hw as [Hwb Hwr]. cbn [forallb] in *.
      apply andb_prop in Hwr as [Hwr Hwa].
      now rewrite Hwb, access_rule_after_append, Hwa.
    + rewrite !filter_app. cbn [filter].
      rewrite one_factor_after_append, Hr, !length_app. cbn [length]. lia.
  - eexists _, _, _, _. split; [exact (Hno eq_refl)|]. split.
    + apply with_rules_document. rewrite forallb_app, Hw. reflexivity.
    + rewrite filter_app, (filter_none_one_factor _ Hex). reflexivity.
Qed.

Lemma update_access_control_keeps_the_data_model_witness :
  exists doc' rules',
    update_access_control "alpha.example.com" example_authelia = Ok doc' /\
    rules_of doc' = Ok (YSeq rules') /\
    length (filter one_factor rules') = 1%nat.
Proof.
  assert (Hdoc : access_document example_authelia example_authelia_top
                   example_access_control example_rules)
    by (repeat split; reflexivity).
  destruct (update_access_control_keeps_the_data_model "alpha.example.com"
              _ _ _ _ Hdoc)
    as (doc' & top' & ac' & rules' & Hu & (-> & Ht & Hr & _) & Hlen).
  exists (YMap top'), rules'. repeat split; try assumption.
  unfold rules_of. cbn [getitem]. rewrite Ht. cbn [rbind getitem].
  now rewrite Hr.
Defined.

(** ** Runs that fail part-way *)

Section Failures.
Context {content : Type} {codec : YamlCodec content}.
Variable w : world.

Lemma bind_Uncaught {A B} (m : M content A) (k : A -> M content B) st e st' :
  m st = (Uncaught e, st') -> bind m k st = (Uncaught e, st').
Proof. unfold bind. now intros ->. Qed.

Lemma main_reaches_load prog config_file (st : state content) :
  settings_present w = true ->
  sys_argv w = [prog; config_file] ->
  main w st =
  bind (load_and_backup w config_file)
    (fun loaded =>
       let '(config, timestamp) := loaded in
       bind (read_inputs (content := content))
         (fun answers =>
            let '(service_name, ip_address, scheme) := answers in
            bind (merge_and_save config_file (the (DOMAIN_NAME w))
                    service_name ip_address scheme config)
              (fun _ =>
                 publish w timestamp (the (CLOUDFLARE_API_TOKEN w))
                   (the (CLOUDFLARE_ZONE_ID w)) (the (DOMAIN_NAME w))
                   service_name))) st.
Proof.
  intros Hset Hargv. unfold main.
  pose proof (check_environment_run w st) as E. rewrite Hset in E.
  rewrite (bind_Done _ _ _ _ _ E). clear E.
  pose proof (check_usage_run w st) as U. rewrite Hargv in U. cbn in U.
  now rewrite (bind_Done _ _ _ _ _ U).
Qed.

(** X8.  When the routing document cannot be opened or does not parse,
    the run ends in the uncaught exception and has done nothing: no
    directory made, no file written, no prompt shown, no request sent. *)
Theorem unreadable_routing_document_changes_nothing
  prog config_file (st : state content) :
  settings_present w = true ->
  sys_argv w = [prog; config_file] ->
  files st config_file = None \/
  (exists c, files st config_file = Some c /\ yaml_safe_load c = None) ->
  exists e,
    main w st = (Uncaught e, st) /\
    (e = FileNotFoundError \/ e = YAMLError) /\
    exit_code (fst (main w st)) = 1%Z.
Proof.
  intros Hset Hargv Hbad.
  rewrite (main_reaches_load _ _ _ Hset Hargv).
  destruct Hbad as [Hnone|(c & Hc & Hp)].
  - exists FileNotFoundError.
    assert (H : load_and_backup w config_file st =
                (Uncaught FileNotFoundError, st)).
    { unfold load_and_backup, bind, load_file. now rewrite Hnone. }
    rewrite (bind_Uncaught _ _ _ _ _ H). auto.
  - exists YAMLError.
    assert (H : load_and_backup w config_file st = (Uncaught YAMLError, st)).
    { unfold load_and_backup, bind, load_file. now rewrite Hc, Hp. }
    rewrite (bind_Uncaught _ _ _ _ _ H). auto.
Qed.

Lemma authelia_not_backup_file ts :
  (authelia_config_path =? backup_file_of ts) = false.
Proof. reflexivity. Qed.

Lemma authelia_not_its_backup ts :
  (authelia_config_path =? authelia_backup_file_of ts) = false.
Proof. reflexivity. Qed.

(** X9.  When the merge raises (the document lacks [http], [routers] or
    [services], or one of them is not a mapping), the run ends in that
    exception after the backup and the prompts: the routing document is
    not overwritten, no request is sent and the access-control document
    is not touched. *)
Theorem failed_merge_leaves_routing_document
  prog config_file c config s ip answer rest e (st : state content) :
  settings_present w = true ->
  sys_argv w = [prog; config_file] ->
  files st config_file = Some c ->
  yaml_safe_load c = Some config ->
  stdin st = s :: ip :: answer :: rest ->
  valid_scheme (lower (strip answer)) = true ->
  merge (the (DOMAIN_NAME w)) s ip (lower (strip answer)) config = Raise e ->
  config_file <> backup_file_of (now w) ->
  main w st = (Uncaught e, answered s (backed_up w config st)) /\
  files (snd (main w st)) config_file = Some c /\
  files (snd (main w st)) (backup_file_of (now w)) = Some (yaml_dump config) /\
  files (snd (main w st)) authelia_config_path = files st authelia_config_path /\
  posted (snd (main w st)) = posted st.
Proof.
  intros Hset Hargv Hf Hl Hin Hsch Hm Hne.
  assert (Hrun : main w st = (Uncaught e, answered s (backed_up w config st))).
  { rewrite (main_reaches_load _ _ _ Hset Hargv).
    rewrite (bind_Done _ _ _ _ _ (load_and_backup_run w _ _ _ _ Hf Hl)).
    assert (Hin' : stdin (backed_up w config st) = s :: ip :: answer :: rest)
      by exact Hin.
    pose proof (read_inputs_run _ _ _ _ _ Hin') as R. rewrite Hsch in R.
    rewrite (bind_Done _ _ _ _ _ R).
    apply bind_Uncaught. unfold merge_and_save, bind, lift. now rewrite Hm. }
  rewrite Hrun. split; [reflexivity|].
  cbn [snd answered backed_up asked say wrote made files posted].
  unfold write_content.
  apply String.eqb_neq in Hne. rewrite Hne, String.eqb_refl.
  now rewrite authelia_not_backup_file.
Qed.

Lemma post_down token zone name target (st : state content) :
  requests_post w (cname_request token zone name target) = None ->
  add_cname_record_to_cloudflare w token zone name target st =
  (Uncaught RequestException, sent (cname_request token zone name target) st).
Proof.
  intros H. unfold add_cname_record_to_cloudflare, bind, post. now rewrite H.
Qed.

(** X10.  When the DNS request itself fails (no response), the run ends
    in the uncaught exception with the routing document already
    overwritten by the merged one; nothing is rolled back, and the
    access-control document is not touched. *)
Theorem network_failure_is_not_rolled_back
  prog config_file c config s ip answer rest config' (st : state content) :
  settings_present w = true ->
  sys_argv w = [prog; config_file] ->
  files st config_file = Some c ->
  yaml_safe_load c = Some config ->
  stdin st = s :: ip :: answer :: rest ->
  valid_scheme (lower (strip answer)) = true ->
  merge (the (DOMAIN_NAME w)) s ip (lower (strip answer)) config = Ok config' ->
  let req := cname_request (the (CLOUDFLARE_API_TOKEN w))
               (the (CLOUDFLARE_ZONE_ID w))
               (fstr [s; "."; the (DOMAIN_NAME w)]) (the (DOMAIN_NAME w)) in
  requests_post w req = None ->
  config_file <> authelia_config_path ->
  main w st =
  (Uncaught RequestException,
   sent req (saved config_file config' (answered s (backed_up w config st)))) /\
  exit_code (fst (main w st)) = 1%Z /\
  files (snd (main w st)) config_file = Some (yaml_dump config') /\
  files (snd (main w st)) authelia_config_path = files st authelia_config_path /\
  posted (snd (main w st)) = posted st ++ [req].
Proof.
  intros Hset Hargv Hf Hl Hin Hsch Hm req Hpost Hne.
  assert (Hrun : main w st =
                 (Uncaught RequestException,
                  sent req (saved config_file config'
                              (answered s (backed_up w config st))))).
  { rewrite (main_reaches_publish w _ _ _ _ _ _ _ _ _ _
               Hset Hargv Hf Hl Hin Hsch Hm).
    unfold publish. apply bind_Uncaught. now apply post_down. }
  rewrite Hrun. split; [reflexivity|]. split; [reflexivity|].
  cbn [snd sent saved answered backed_up asked say wrote made files posted].
  unfold write_content.
  apply not_eq_sym, String.eqb_neq in Hne.
  now rewrite String.eqb_refl, Hne, authelia_not_backup_file.
Qed.

(** X11.  When the access-control document cannot be opened or does not
    parse, the run ends in the uncaught exception after the routing
    document was overwritten and the DNS request sent; the only further
    effect is the backup directory. *)
Theorem unreadable_authelia_document_is_not_rolled_back
  prog config_file c config s ip answer rest config' resp (st : state content) :
  settings_present w = true ->
  sys_argv w = [prog; config_file] ->
  files st config_file = Some c ->
  yaml_safe_load c = Some config ->
  stdin st = s :: ip :: answer :: rest ->
  valid_scheme (lower (strip answer)) = true ->
  merge (the (DOMAIN_NAME w)) s ip (lower (strip answer)) config = Ok config' ->
  let req := cname_request (the (CLOUDFLARE_API_TOKEN w))
               (the (CLOUDFLARE_ZONE_ID w))
               (fstr [s; "."; the (DOMAIN_NAME w)]) (the (DOMAIN_NAME w)) in
  let st1 := saved config_file config' (answered s (backed_up w config st)) in
  requests_post w req = Some resp ->
  files st1 authelia_config_path = None \/
  (exists ac, files st1 authelia_config_path = Some ac /\
              yaml_safe_load ac = None) ->
  exists e,
    main w st = (Uncaught e, made authelia_backup_dir (registered w s resp st1)) /\
    (e = FileNotFoundError \/ e = YAMLError) /\
    files (snd (main w st)) config_file = Some (yaml_dump config') /\
    files (snd (main w st)) authelia_config_path = files st1 authelia_config_path /\
    posted (snd (main w st)) = posted st ++ [req].
Proof.
  intros Hset Hargv Hf Hl Hin Hsch Hm req st1 Hpost Hbad.
  rewrite (main_reaches_publish w _ _ _ _ _ _ _ _ _ _
             Hset Hargv Hf Hl Hin Hsch Hm).
  unfold publish.
  rewrite (bind_Done _ _ _ _ _
             (add_cname_record_to_cloudflare_run w _ _ _ _ _ _ Hpost)).
  fold st1. fold req.
  assert (Hload : exists e,
             update_authelia_config (now w) authelia_config_path
               (new_subdomain s (the (DOMAIN_NAME w)))
               (say (cname_message (fstr [s; "."; the (DOMAIN_NAME w)])
                       (the (DOMAIN_NAME w)) resp) (sent req st1)) =
             (Uncaught e, made authelia_backup_dir (registered w s resp st1)) /\
             (e = FileNotFoundError \/ e = YAMLError)).
  { unfold update_authelia_config, bind. cbn [makedirs]. unfold load_file.
    cbn [files made say sent].
    destruct Hbad as [Hnone|(ac & Hac & Hp)].
    - exists FileNotFoundError. rewrite Hnone. auto.
    - exists YAMLError. rewrite Hac, Hp. auto. }
  destruct Hload as (e & Hload & He). exists e.
  rewrite (bind_Uncaught _ _ _ _ _ Hload).
  split; [reflexivity|]. split; [exact He|].
  cbn [snd made registered sent say files posted]. unfold st1.
  cbn [saved answered backed_up asked say wrote made files posted].
  unfold write_content. now rewrite String.eqb_refl.
Qed.

(** X12.  When the access-control update raises (for instance a rule
    without [policy] before the first [one_factor] rule, or a [domain]
    that is a single string), the run ends in that exception: the
    access-control document is not overwritten though its backup was
    written, and the routing document and the DNS request are not rolled
    back. *)
Theorem failed_authelia_update_leaves_authelia_document
  prog config_file c config s ip answer rest config' resp ac adoc e
  (st : state content) :
  settings_present w = true ->
  sys_argv w = [prog; config_file] ->
  files st config_file = Some c ->
  yaml_safe_load c = Some config ->
  stdin st = s :: ip :: answer :: rest ->
  valid_scheme (lower (strip answer)) = true ->
  merge (the (DOMAIN_NAME w)) s ip (lower (strip answer)) config = Ok config' ->
  let req := cname_request (the (CLOUDFLARE_API_TOKEN w))
               (the (CLOUDFLARE_ZONE_ID w))
               (fstr [s; "."; the (DOMAIN_NAME w)]) (the (DOMAIN_NAME w)) in
  let st1 := saved config_file config' (answered s (backed_up w config st)) in
  requests_post w req = Some resp ->
  files st1 authelia_config_path = Some ac ->
  yaml_safe_load ac = Some adoc ->
  update_access_control (new_subdomain s (the (DOMAIN_NAME w))) adoc = Raise e ->
  exists st',
    main w st = (Uncaught e, st') /\
    files st' authelia_config_path = Some ac /\
    files st' (authelia_backup_file_of (now w)) = Some (yaml_dump adoc) /\
    posted st' = posted st ++ [req].
Proof.
  intros Hset Hargv Hf Hl Hin Hsch Hm req st1 Hpost Haf Hal Hup.
  rewrite (main_reaches_publish w _ _ _ _ _ _ _ _ _ _
             Hset Hargv Hf Hl Hin Hsch Hm).
  unfold publish.
  rewrite (bind_Done _ _ _ _ _
             (add_cname_record_to_cloudflare_run w _ _ _ _ _ _ Hpost)).
  fold st1. fold req.
  eexists. split.
  - apply bind_Uncaught. unfold update_authelia_config, bind.
    cbn [makedirs]. unfold load_file. cbn [files made say sent].
    rewrite Haf, Hal. cbn [dump_file print lift]. rewrite Hup. reflexivity.
  - cbn [say wrote made sent files posted]. unfold write_content.
    rewrite authelia_not_its_backup, String.eqb_refl. auto.
Qed.

End Failures.

(** ** What a run may change, whatever happens *)

Section Composition.
Context {content : Type} {codec : YamlCodec content}.

Lemma run_spec_bind_gen {A B}
  (R1 R2 R3 : state content -> state content -> Prop)
  (Q : A -> Prop) (Q' : B -> Prop) (m : M content A) (k : A -> M content B) :
  (forall x y, R1 x y -> R3 x y) ->
  (forall x y z, R1 x y -> R2 y z -> R3 x z) ->
  run_spec R1 Q m ->
  (forall a, Q a -> run_spec R2 Q' (k a)) ->
  run_spec R3 Q' (bind m k).
Proof.
  intros Hfail Hcomp Hm Hk st. unfold bind.
  destruct (Hm st) as [HR HQ].
  destruct (m st) as [[a|e|c] st1]; cbn [fst snd] in *.
  - destruct (Hk a (HQ a eq_refl) st1) as [HR' HQ'].
    split; [eapply Hcomp; eassumption|exact HQ'].
  - split; [auto|discriminate].
  - split; [auto|discriminate].
Qed.

Lemma run_spec_weaken {A} (R : state content -> state content -> Prop)
  (Q Q' : A -> Prop) (m : M content A) :
  (forall a, Q a -> Q' a) -> run_spec R Q m -> run_spec R Q' m.
Proof. intros H Hm st. destruct (Hm st). split; auto. Qed.

(** The steps of the script, for any relation that the primitive effects
    respect. *)
Section Steps.
Variable w : world.
Variable R : state content -> state content -> Prop.
Variable may_write : string -> Prop.
Variable may_send : request -> Prop.
Hypothesis R_refl : forall st, R st st.
Hypothesis R_trans : forall x y z, R x y -> R y z -> R x z.
Hypothesis R_say : forall line st, R st (say line st).
Hypothesis R_asked : forall prompt st, R st (asked prompt st).
Hypothesis R_made_backup : forall st, R st (made backup_dir st).
Hypothesis R_made_authelia : forall st, R st (made authelia_backup_dir st).
Hypothesis R_wrote : forall path doc st, may_write path -> R st (wrote path doc st).
Hypothesis R_sent : forall r st, may_send r -> R st (sent r st).

Lemma run_spec_bind {A B} (Q : A -> Prop) (Q' : B -> Prop)
  (m : M content A) (k : A -> M content B) :
  run_spec R Q m -> (forall a, Q a -> run_spec R Q' (k a)) ->
  run_spec R Q' (bind m k).
Proof. apply run_spec_bind_gen; eauto. Qed.

Lemma spec_ret {A} (a : A) : run_spec R (fun x => x = a) (ret a).
Proof. intros st. split; [apply R_refl|]. cbn. congruence. Qed.

Lemma spec_print line : run_spec R (fun _ => True) (print line).
Proof. intros st. split; [apply R_say|auto]. Qed.

Lemma spec_sys_exit {A} code : run_spec R (fun _ : A => False) (sys_exit code).
Proof. intros st. split; [apply R_refl|discriminate]. Qed.

Lemma spec_lift {A} (r : result A) : run_spec R (fun a => r = Ok a) (lift r).
Proof.
  intros st. unfold lift. destruct r; cbn; split;
    try apply R_refl; congruence.
Qed.

Lemma spec_input prompt : run_spec R (fun _ => True) (input prompt).
Proof.
  intros st. unfold input. destruct (stdin st); cbn; split;
    try apply R_asked; auto.
Qed.

Lemma spec_load_file path : run_spec R (fun _ => True) (load_file path).
Proof.
  intros st. unfold load_file. destruct (files st path) as [c|]; cbn.
  - destruct (yaml_safe_load c); cbn; split; try apply R_refl; auto.
  - split; [apply R_refl|auto].
Qed.

Lemma spec_dump_file path doc :
  may_write path -> run_spec R (fun _ => True) (dump_file path doc).
Proof. intros H st. split; [now apply R_wrote|auto]. Qed.

Lemma spec_post r : may_send r -> run_spec R (fun _ => True) (post w r).
Proof.
  intros H st. unfold post. destruct (requests_post w r); cbn; split;
    try (now apply R_sent); auto.
Qed.

Lemma spec_check_environment :
  run_spec R
    (fun env => env = (the (CLOUDFLARE_API_TOKEN w), the (CLOUDFLARE_ZONE_ID w),
                       the (DOMAIN_NAME w)))
    (check_environment w).
Proof.
  unfold check_environment.
  destruct (negb (truthy (CLOUDFLARE_API_TOKEN w))
            || negb (truthy (CLOUDFLARE_ZONE_ID w))
            || negb (truthy (DOMAIN_NAME w))).
  - apply run_spec_bind with (Q := fun _ => True); [apply spec_print|].
    intros _ _. eapply run_spec_weaken; [|apply spec_sys_exit]. now intros ? [].
  - apply spec_ret.
Qed.

Lemma spec_check_usage :
  run_spec R (fun config_file => config_file = nth 1 (sys_argv w) EmptyString)
    (check_usage w).
Proof.
  unfold check_usage. destruct (negb (length (sys_argv w) =? 2)%nat).
  - apply run_spec_bind with (Q := fun _ => True); [apply spec_print|].
    intros _ _. eapply run_spec_weaken; [|apply spec_sys_exit]. now intros ? [].
  - apply spec_ret.
Qed.

Lemma spec_load_and_backup config_file :
  may_write (backup_file_of (now w)) ->
  run_spec R (fun loaded => snd loaded = now w) (load_and_backup w config_file).
Proof.
  intros Hb. unfold load_and_backup.
  apply run_spec_bind with (Q := fun _ => True); [apply spec_load_file|].
  intros config _.
  apply run_spec_bind with (Q := fun _ => True).
  { intros st. split; [apply R_made_backup|auto]. }
  intros _ _.
  apply run_spec_bind with (Q := fun _ => True); [now apply spec_dump_file|].
  intros _ _.
  apply run_spec_bind with (Q := fun _ => True); [apply spec_print|].
  intros _ _. eapply run_spec_weaken; [|apply spec_ret].
  now intros a ->.
Qed.

Lemma spec_read_inputs :
  run_spec R (fun _ => True) (read_inputs (content := content)).
Proof.
  unfold read_inputs.
  apply run_spec_bind with (Q := fun _ => True); [apply spec_input|].
  intros s _.
  apply run_spec_bind with (Q := fun _ => True); [apply spec_input|].
  intros ip _.
  apply run_spec_bind with (Q := fun _ => True); [apply spec_input|].
  intros answer _.
  destruct (negb (valid_scheme (lower (strip answer)))).
  - apply run_spec_bind with (Q := fun _ => True); [apply spec_print|].
    intros _ _. eapply run_spec_weaken; [|apply spec_sys_exit]. now intros ? [].
  - eapply run_spec_weaken; [|apply spec_ret]. auto.
Qed.

Lemma spec_merge_and_save config_file D s ip sch config :
  may_write config_file ->
  run_spec R (fun _ => True) (merge_and_save config_file D s ip sch config).
Proof.
  intros Hc. unfold merge_and_save.
  apply run_spec_bind with (Q := fun _ => True).
  { eapply run_spec_weaken; [|apply spec_lift]. auto. }
  intros config' _.
  apply run_spec_bind with (Q := fun _ => True); [now apply spec_dump_file|].
  intros _ _. apply spec_print.
Qed.

Lemma spec_update_authelia_config sub :
  may_write (authelia_backup_file_of (now w)) ->
  may_write authelia_config_path ->
  run_spec R (fun _ => True)
    (update_authelia_config (now w) authelia_config_path sub).
Proof.
  intros Hb Ha. unfold update_authelia_config.
  apply run_spec_bind with (Q := fun _ => True).
  { intros st. split; [apply R_made_authelia|auto]. }
  intros _ _.
  apply run_spec_bind with (Q := fun _ => True); [apply spec_load_file|].
  intros adoc _.
  apply run_spec_bind with (Q := fun _ => True); [now apply spec_dump_file|].
  intros _ _.
  apply run_spec_bind with (Q := fun _ => True); [apply spec_print|].
  intros _ _.
  apply run_spec_bind with (Q := fun _ => True).
  { eapply run_spec_weaken; [|apply spec_lift]. auto. }
  intros adoc' _. now apply spec_dump_file.
Qed.

Lemma spec_add_cname token zone name target :
  may_send (cname_request token zone name target) ->
  run_spec R (fun _ => True)
    (add_cname_record_to_cloudflare w token zone name target).
Proof.
  intros H. unfold add_cname_record_to_cloudflare.
  apply run_spec_bind with (Q := fun _ => True); [now apply spec_post|].
  intros resp _. apply spec_print.
Qed.

Lemma spec_after_dns s :
  may_write (authelia_backup_file_of (now w)) ->
  may_write authelia_config_path ->
  run_spec R (fun _ => True)
    (bind (update_authelia_config (now w) authelia_config_path
             (new_subdomain s (the (DOMAIN_NAME w))))
       (fun _ =>
          print (fstr ["Authelia configuration updated with new subdomain ";
                       new_subdomain s (the (DOMAIN_NAME w))]))).
Proof.
  intros Hb Ha.
  apply run_spec_bind with (Q := fun _ => True);
    [now apply spec_update_authelia_config|].
  intros _ _. apply spec_print.
Qed.

(** The whole script, given what follows the saved routing document. *)
Lemma spec_main_with (R' : state content -> state content -> Prop) :
  (forall x y, R x y -> R' x y) ->
  (forall x y z, R x y -> R' y z -> R' x z) ->
  may_write (backup_file_of (now w)) ->
  may_write (nth 1 (sys_argv w) EmptyString) ->
  (forall s,
      run_spec R' (fun _ => True)
        (publish w (now w) (the (CLOUDFLARE_API_TOKEN w))
           (the (CLOUDFLARE_ZONE_ID w)) (the (DOMAIN_NAME w)) s)) ->
  run_spec R' (fun _ => True) (main w).
Proof.
  intros Hsub Hcomp Hb Hc Hpub. unfold main.
  eapply run_spec_bind_gen; [exact Hsub|exact Hcomp|apply spec_check_environment|].
  intros env ->.
  eapply run_spec_bind_gen; [exact Hsub|exact Hcomp|apply spec_check_usage|].
  intros config_file ->.
  eapply run_spec_bind_gen;
    [exact Hsub|exact Hcomp|now apply spec_load_and_backup|].
  intros [config timestamp] Hts. cbn [snd] in Hts. subst timestamp.
  eapply run_spec_bind_gen; [exact Hsub|exact Hcomp|apply spec_read_inputs|].
  intros [[s ip] sch] _.
  eapply run_spec_bind_gen;
    [exact Hsub|exact Hcomp|now apply spec_merge_and_save|].
  intros _ _. apply Hpub.
Qed.

End Steps.

Lemma same_files_outside_trans paths (x y z : state content) :
  same_files_outside paths x y -> same_files_outside paths y z ->
  same_files_outside paths x z.
Proof. intros H1 H2 p Hp. now rewrite (H2 p Hp), (H1 p Hp). Qed.

Lemma same_files_outside_wrote paths path doc (st : state content) :
  In path paths -> same_files_outside paths st (wrote path doc st).
Proof.
  intros Hin p Hp. cbn [wrote files]. unfold write_content.
  destruct (String.eqb_spec p path) as [->|]; [contradiction|reflexivity].
Qed.

(** X13.  Whatever the settings, arguments, files, answers and network
    response, and however the run ends, no file other than the routing
    document, its backup, the access-control document and its backup is
    changed. *)
Theorem main_writes_only_its_four_files (w : world) (st : state content) path :
  ~ In path (written_paths w) ->
  files (snd (main w st)) path = files st path.
Proof.
  intros Hp.
  set (R := same_files_outside (content := content) (written_paths w)).
  assert (Htrans : forall x y z : state content, R x y -> R y z -> R x z)
    by apply same_files_outside_trans.
  assert (Hquiet : forall st0 st1 : state content,
             files st1 = files st0 -> R st0 st1)
    by (intros st0 st1 E p _; now rewrite E).
  assert (Hwrote : forall path0 doc (st0 : state content),
             In path0 (written_paths w) -> R st0 (wrote path0 doc st0))
    by (intros; now apply same_files_outside_wrote).
  assert (Hmain : run_spec R (fun _ => True) (main w)).
  { apply spec_main_with
      with (R := R) (may_write := fun path0 => In path0 (written_paths w));
      [intros; now apply Hquiet | exact Htrans | intros; now apply Hquiet
      | intros; now apply Hquiet | intros; now apply Hquiet | exact Hwrote
      | auto | exact Htrans | now left | now right; left | ].
    intros s. unfold publish.
    apply run_spec_bind with (Q := fun _ => True); [exact Htrans| |].
    - apply spec_add_cname with (may_send := fun _ => True);
        [exact Htrans | intros; now apply Hquiet | intros; now apply Hquiet
        | exact I].
    - intros _ _.
      apply spec_after_dns
        with (may_write := fun path0 => In path0 (written_paths w));
        [intros; now apply Hquiet | exact Htrans | intros; now apply Hquiet
        | intros; now apply Hquiet | exact Hwrote
        | now right; right; left | now right; right; right; left]. }
  exact (proj1 (Hmain st) path Hp).
Qed.

End Composition.

Section Bounds.
Context {content : Type} {codec : YamlCodec content}.
Variable w : world.

Lemma add_cname_posts_once token zone name target (st : state content) :
  posted (snd (add_cname_record_to_cloudflare w token zone name target st)) =
  posted st ++ [cname_request token zone name target].
Proof.
  unfold add_cname_record_to_cloudflare, bind, post.
  destruct (requests_post w (cname_request token zone name target)); reflexivity.
Qed.

Lemma read_inputs_short (st : state content) :
  (length (stdin st) < 3)%nat ->
  exists st', read_inputs st = (Uncaught EOFError, st').
Proof.
  intros Hlen. unfold read_inputs, bind, input.
  destruct (stdin st) as [|s [|ip [|answer rest]]] eqn:Hin;
    do 3 (cbn [asked stdin tl]; rewrite ?Hin); cbn [tl];
    try (eexists; reflexivity).
  simpl in Hlen. lia.
Qed.

(** X16.  A run that ends normally has done everything: the settings
    were present, the command line had one argument, the routing document
    loaded and merged, three answers were read with a valid scheme, the
    DNS request got a response (of any status), and the access-control
    document loaded and was updated; the final state is the one of the
    complete run. *)
Theorem normal_end_means_complete_run (st st' : state content) :
  main w st = (Done tt, st') ->
  exists prog config_file c config s ip answer rest config' resp ac adoc adoc',
    settings_present w = true /\
    sys_argv w = [prog; config_file] /\
    files st config_file = Some c /\
    yaml_safe_load c = Some config /\
    stdin st = s :: ip :: answer :: rest /\
    valid_scheme (lower (strip answer)) = true /\
    merge (the (DOMAIN_NAME w)) s ip (lower (strip answer)) config = Ok config' /\
    requests_post w
      (cname_request (the (CLOUDFLARE_API_TOKEN w)) (the (CLOUDFLARE_ZONE_ID w))
         (fstr [s; "."; the (DOMAIN_NAME w)]) (the (DOMAIN_NAME w))) =
    Some resp /\
    files (saved config_file config' (answered s (backed_up w config st)))
      authelia_config_path = Some ac /\
    yaml_safe_load ac = Some adoc /\
    update_access_control (new_subdomain s (the (DOMAIN_NAME w))) adoc =
    Ok adoc' /\
    st' =
    authelia_updated w s adoc adoc'
      (registered w s resp
         (saved config_file config' (answered s (backed_up w config st)))).
Proof.
  intros H.
  destruct (settings_present w) eqn:Hset.
  2:{ unfold main in H. pose proof (check_environment_run w st) as E.
      rewrite Hset in E. rewrite (bind_SysExit _ _ _ _ _ E) in H.
      discriminate. }
  destruct (length (sys_argv w) =? 2)%nat eqn:Hlen.
  2:{ unfold main in H. pose proof (check_environment_run w st) as E.
      rewrite Hset in E. rewrite (bind_Done _ _ _ _ _ E) in H.
      pose proof (check_usage_run w st) as U. rewrite Hlen in U.
      rewrite (bind_SysExit _ _ _ _ _ U) in H. discriminate. }
  destruct (sys_argv w) as [|prog [|config_file [|]]] eqn:Hargv;
    try discriminate.
  rewrite (main_reaches_load w _ _ _ Hset Hargv) in H.
  destruct (files st config_file) as [c|] eqn:Hf.
  2:{ assert (E : load_and_backup w config_file st =
                  (Uncaught FileNotFoundError, st))
        by (unfold load_and_backup, bind, load_file; now rewrite Hf).
      rewrite (bind_Uncaught _ _ _ _ _ E) in H. discriminate. }
  destruct (yaml_safe_load c) as [config|] eqn:Hl.
  2:{ assert (E : load_and_backup w config_file st = (Uncaught YAMLError, st))
        by (unfold load_and_backup, bind, load_file; now rewrite Hf, Hl).
      rewrite (bind_Uncaught _ _ _ _ _ E) in H. discriminate. }
  rewrite (bind_Done _ _ _ _ _ (load_and_backup_run w _ _ _ _ Hf Hl)) in H.
  destruct (stdin st) as [|s [|ip [|answer rest]]] eqn:Hin.
  1-3: destruct (read_inputs_short (backed_up w config st)) as (st0 & E);
    [cbn [backed_up say wrote made stdin]; rewrite Hin; simpl; lia|];
    rewrite (bind_Uncaught _ _ _ _ _ E) in H; discriminate.
  assert (Hin' : stdin (backed_up w config st) = s :: ip :: answer :: rest)
    by exact Hin.
  pose proof (read_inputs_run _ _ _ _ _ Hin') as Rd.
  destruct (valid_scheme (lower (strip answer))) eqn:Hsch.
  2:{ rewrite (bind_SysExit _ _ _ _ _ Rd) in H. discriminate. }
  rewrite (bind_Done _ _ _ _ _ Rd) in H.
  destruct (merge (the (DOMAIN_NAME w)) s ip (lower (strip answer)) config)
    as [config'|e] eqn:Hm.
  2:{ assert (E : merge_and_save config_file (the (DOMAIN_NAME w)) s ip
                    (lower (strip answer)) config
                    (answered s (backed_up w config st)) =
                  (Uncaught e, answered s (backed_up w config st)))
        by (unfold merge_and_save, bind, lift; now rewrite Hm).
      rewrite (bind_Uncaught _ _ _ _ _ E) in H. discriminate. }
  rewrite (bind_Done _ _ _ _ _
             (merge_and_save_run config_file _ _ _ _ _ _ _ Hm)) in H.
  unfold publish in H.
  destruct (requests_post w
              (cname_request (the (CLOUDFLARE_API_TOKEN w))
                 (the (CLOUDFLARE_ZONE_ID w))
                 (fstr [s; "."; the (DOMAIN_NAME w)]) (the (DOMAIN_NAME w))))
    as [resp|] eqn:Hpost.
  2:{ rewrite (bind_Uncaught _ _ _ _ _ (post_down w _ _ _ _ _ Hpost)) in H.
      discriminate. }
  rewrite (bind_Done _ _ _ _ _
             (add_cname_record_to_cloudflare_run w _ _ _ _ _ _ Hpost)) in H.
  set (st1 := saved config_file config' (answered s (backed_up w config st)))
    in *.
  destruct (files st1 authelia_config_path) as [ac|] eqn:Haf.
  2:{ unfold update_authelia_config, bind in H. cbn [makedirs] in H.
      unfold load_file in H. cbn [files made say sent] in H.
      rewrite Haf in H. discriminate. }
  destruct (yaml_safe_load ac) as [adoc|] eqn:Hal.
  2:{ unfold update_authelia_config, bind in H. cbn [makedirs] in H.
      unfold load_file in H. cbn [files made say sent] in H.
      rewrite Haf, Hal in H. discriminate. }
  destruct (update_access_control (new_subdomain s (the (DOMAIN_NAME w))) adoc)
    as [adoc'|e] eqn:Hup.
  2:{ unfold update_authelia_config, bind in H. cbn [makedirs] in H.
      unfold load_file in H. cbn [files made say sent] in H.
      rewrite Haf, Hal in H. cbn [dump_file print lift] in H.
      rewrite Hup in H. discriminate. }
  assert (Haf' : files
            (say (cname_message (fstr [s; "."; the (DOMAIN_NAME w)])
                    (the (DOMAIN_NAME w)) resp)
               (sent (cname_request (the (CLOUDFLARE_API_TOKEN w))
                        (the (CLOUDFLARE_ZONE_ID w))
                        (fstr [s; "."; the (DOMAIN_NAME w)])
                        (the (DOMAIN_NAME w))) st1))
            authelia_config_path = Some ac) by exact Haf.
  rewrite (bind_Done _ _ _ _ _
             (update_authelia_config_run w _ _ _ _ _ Haf' Hal Hup)) in H.
  injection H as <-.
  exists prog, config_file, c, config, s, ip, answer, rest, config', resp,
    ac, adoc, adoc'.
  repeat split; assumption.
Qed.

End Bounds.

(** ** Which answers pass the scheme check *)

Lemma isspace_lower_char c : isspace (lower_char c) = isspace c.
Proof. destruct c as [[] [] [] [] [] [] [] []]; reflexivity. Qed.

Lemma lower_app a b : lower (a ++ b) = (lower a ++ lower b)%string.
Proof. induction a as [|c a IH]; simpl; [reflexivity|]. now rewrite IH. Qed.

Lemma all_space_lower s : all_space (lower s) = all_space s.
Proof.
  induction s as [|c s IH]; simpl; [reflexivity|].
  now rewrite isspace_lower_char, IH.
Qed.

Lemma lstrip_lower s : lstrip (lower s) = lower (lstrip s).
Proof.
  induction s as [|c s IH]; simpl; [reflexivity|].
  rewrite isspace_lower_char. destruct (isspace c); [exact IH|reflexivity].
Qed.

Lemma rstrip_lower s : rstrip (lower s) = lower (rstrip s).
Proof.
  induction s as [|c s IH]; simpl; [reflexivity|].
  rewrite IH, isspace_lower_char.
  destruct (rstrip s); simpl; [destruct (isspace c)|]; reflexivity.
Qed.

Lemma strip_lower s : strip (lower s) = lower (strip s).
Proof. unfold strip. now rewrite lstrip_lower, rstrip_lower. Qed.

Lemma lstrip_split s :
  exists l, s = (l ++ lstrip s)%string /\ all_space l = true.
Proof.
  induction s as [|c s (l & IH & Hl)]; simpl; [now exists EmptyString|].
  destruct (isspace c) eqn:E.
  - exists (String c l). simpl. rewrite E, Hl. now rewrite <- IH.
  - now exists EmptyString.
Qed.

Lemma rstrip_split s :
  exists r, s = (rstrip s ++ r)%string /\ all_space r = true.
Proof.
  induction s as [|c s (r & IH & Hr)]; simpl; [now exists EmptyString|].
  destruct (rstrip s) as [|c' t] eqn:E.
  - simpl in IH. subst r. destruct (isspace c) eqn:Ec.
    + exists (String c s). simpl. now rewrite Ec, Hr.
    + exists s. now split.
  - exists r. simpl in *. now rewrite <- IH.
Qed.

Lemma lstrip_app_space l s : all_space l = true -> lstrip (l ++ s) = lstrip s.
Proof.
  induction l as [|c l IH]; simpl; [reflexivity|]. intros H.
  apply andb_prop in H as [Hc Hl]. rewrite Hc. auto.
Qed.

Lemma rstrip_all_space r : all_space r = true -> rstrip r = EmptyString.
Proof.
  induction r as [|c r IH]; simpl; [reflexivity|]. intros H.
  apply andb_prop in H as [Hc Hr]. now rewrite (IH Hr), Hc.
Qed.

Lemma rstrip_app_space s r : all_space r = true -> rstrip (s ++ r) = rstrip s.
Proof.
  intros Hr. induction s as [|c s IH]; simpl.
  - now apply rstrip_all_space.
  - now rewrite IH.
Qed.

Lemma strip_padded_http l r :
  all_space l = true -> all_space r = true ->
  strip (l ++ "http" ++ r) = "http".
Proof.
  intros Hl Hr. unfold strip. rewrite (lstrip_app_space _ _ Hl).
  change (lstrip ("http" ++ r)) with ("http" ++ r)%string.
  now rewrite (rstrip_app_space _ _ Hr).
Qed.

Lemma strip_padded_https l r :
  all_space l = true -> all_space r = true ->
  strip (l ++ "https" ++ r) = "https".
Proof.
  intros Hl Hr. unfold strip. rewrite (lstrip_app_space _ _ Hl).
  change (lstrip ("https" ++ r)) with ("https" ++ r)%string.
  now rewrite (rstrip_app_space _ _ Hr).
Qed.


(** ** The files after a complete run *)

Section Complete.
Context {content : Type} {codec : YamlCodec content}.
Variable w : world.

Lemma authelia_backup_not_backup_file ts :
  (authelia_backup_file_of ts =? backup_file_of ts) = false.
Proof. reflexivity. Qed.

(** X18.  After a complete run on a routing document that is none of the
    three other files, the four files hold: the backup the document as
    loaded, the routing document the merged one, the Authelia backup the
    access-control document as loaded, and the Authelia configuration the
    updated one. *)
Theorem complete_run_leaves_four_files
  prog config_file c config s ip answer rest config' resp ac adoc adoc'
  (st : state content) :
  settings_present w = true ->
  sys_argv w = [prog; config_file] ->
  files st config_file = Some c ->
  yaml_safe_load c = Some config ->
  stdin st = s :: ip :: answer :: rest ->
  valid_scheme (lower (strip answer)) = true ->
  merge (the (DOMAIN_NAME w)) s ip (lower (strip answer)) config = Ok config' ->
  requests_post w
    (cname_request (the (CLOUDFLARE_API_TOKEN w)) (the (CLOUDFLARE_ZONE_ID w))
       (fstr [s; "."; the (DOMAIN_NAME w)]) (the (DOMAIN_NAME w))) = Some resp ->
  files st authelia_config_path = Some ac ->
  yaml_safe_load ac = Some adoc ->
  update_access_control (new_subdomain s (the (DOMAIN_NAME w))) adoc = Ok adoc' ->
  config_file <> backup_file_of (now w) ->
  config_file <> authelia_backup_file_of (now w) ->
  config_file <> authelia_config_path ->
  exists st',
    main w st = (Done tt, st') /\
    files st' (backup_file_of (now w)) = Some (yaml_dump config) /\
    files st' config_file = Some (yaml_dump config') /\
    files st' (authelia_backup_file_of (now w)) = Some (yaml_dump adoc) /\
    files st' authelia_config_path = Some (yaml_dump adoc').
Proof.
  intros Hset Hargv Hf Hl Hin Hsch Hm Hpost Haf Hal Hup Hn1 Hn2 Hn3.
  assert (Haf' : files (saved config_file config'
                          (answered s (backed_up w config st)))
                   authelia_config_path = Some ac).
  { cbn [saved answered backed_up asked say wrote made files].
    unfold write_content.
    apply not_eq_sym, String.eqb_neq in Hn3.
    now rewrite Hn3, authelia_not_backup_file. }
  eexists. split.
  - exact (main_run w _ _ _ _ _ _ _ _ _ _ _ _ _ _
             Hset Hargv Hf Hl Hin Hsch Hm Hpost Haf' Hal Hup).
  - cbn [authelia_updated registered saved answered backed_up
           say wrote sent asked made files].
    unfold write_content.
    apply String.eqb_neq in Hn1, Hn2, Hn3.
    rewrite backup_file_not_authelia, backup_file_not_authelia_backup.
    rewrite (String.eqb_sym (backup_file_of (now w)) config_file), Hn1.
    rewrite Hn3, Hn2, authelia_not_its_backup.
    rewrite (String.eqb_sym (authelia_backup_file_of (now w))
               authelia_config_path), authelia_not_its_backup.
    now rewrite !String.eqb_refl.
Qed.

End Complete.

(** ** The further theorems at work on example runs *)

Lemma unreadable_routing_document_changes_nothing_witness :
  exists e,
    main (example_world 200) (state_of None (Some example_authelia) example_answers) =
    (Uncaught e, state_of None (Some example_authelia) example_answers).
Proof.
  destruct (unreadable_routing_document_changes_nothing (codec := tree_codec)
              (example_world 200)
              "update_traefik_and_cloudflare_authelia.py" "config.yml"
              (state_of None (Some example_authelia) example_answers)
              eq_refl eq_refl (or_introl eq_refl))
    as (e & Hrun & _).
  now exists e.
Defined.

Lemma failed_merge_leaves_routing_document_witness :
  let st := state_of (Some config_without_services) (Some example_authelia)
              example_answers in
  fst (main (example_world 200) st) = Uncaught KeyError /\
  files (snd (main (example_world 200) st)) "config.yml" =
  Some config_without_services /\
  posted (snd (main (example_world 200) st)) = [].
Proof.
  intros st.
  destruct (failed_merge_leaves_routing_document (codec := tree_codec)
              (example_world 200)
              "update_traefik_and_cloudflare_authelia.py" "config.yml"
              config_without_services config_without_services
              "alpha" "10.0.0.5" " HTTPS " [] KeyError st
              eq_refl eq_refl eq_refl eq_refl eq_refl eq_refl eq_refl
              ltac:(discriminate))
    as (Hrun & Hc & _ & _ & Hp).
  split; [now rewrite Hrun|]. split; assumption.
Defined.

Lemma network_failure_is_not_rolled_back_witness :
  fst (main offline_world (example_state example_answers)) =
  Uncaught RequestException /\
  files (snd (main offline_world (example_state example_answers))) "config.yml" =
  Some example_merged /\
  files (snd (main offline_world (example_state example_answers)))
    authelia_config_path = Some example_authelia.
Proof.
  destruct (network_failure_is_not_rolled_back (codec := tree_codec)
              offline_world
              "update_traefik_and_cloudflare_authelia.py" "config.yml"
              example_config example_config "alpha" "10.0.0.5" " HTTPS " []
              example_merged (example_state example_answers)
              eq_refl eq_refl eq_refl eq_refl eq_refl eq_refl eq_refl eq_refl
              ltac:(discriminate))
    as (Hrun & _ & Hc & Ha & _).
  split; [now rewrite Hrun|]. split; assumption.
Defined.

Lemma unreadable_authelia_document_is_not_rolled_back_witness :
  let st := state_of (Some example_config) None example_answers in
  exists e,
    fst (main (example_world 200) st) = Uncaught e /\
    files (snd (main (example_world 200) st)) "config.yml" = Some example_merged /\
    length (posted (snd (main (example_world 200) st))) = 1%nat.
Proof.
  intros st.
  destruct (unreadable_authelia_document_is_not_rolled_back (codec := tree_codec)
              (example_world 200)
              "update_traefik_and_cloudflare_authelia.py" "config.yml"
              example_config example_config "alpha" "10.0.0.5" " HTTPS " []
              example_merged {| status_code := 200; text := "{}" |} st
              eq_refl eq_refl eq_refl eq_refl eq_refl eq_refl eq_refl eq_refl
              (or_introl eq_refl))
    as (e & Hrun & _ & Hc & _ & Hp).
  exists e. split; [now rewrite Hrun|]. split; [assumption|].
  now rewrite Hp.
Defined.

Lemma failed_authelia_update_leaves_authelia_document_witness :
  let st := state_of (Some example_config) (Some authelia_with_string_domain)
              example_answers in
  exists st',
    main (example_world 200) st = (Uncaught AttributeError, st') /\
    files st' authelia_config_path = Some authelia_with_string_domain.
Proof.
  intros st.
  destruct (failed_authelia_update_leaves_authelia_document (codec := tree_codec)
              (example_world 200)
              "update_traefik_and_cloudflare_authelia.py" "config.yml"
              example_config example_config "alpha" "10.0.0.5" " HTTPS " []
              example_merged {| status_code := 200; text := "{}" |}
              authelia_with_string_domain authelia_with_string_domain
              AttributeError st
              eq_refl eq_refl eq_refl eq_refl eq_refl eq_refl eq_refl eq_refl
              eq_refl eq_refl eq_refl)
    as (st' & Hrun & Ha & _).
  exists st'. split; assumption.
Defined.

Lemma main_writes_only_its_four_files_witness :
  files (snd (main (example_world 409) (example_state example_answers)))
    "docker-compose.yml" =
  files (example_state example_answers) "docker-compose.yml".
Proof.
  apply (main_writes_only_its_four_files (codec := tree_codec)).
  intros [H|[H|[H|[H|[]]]]]; discriminate H.
Defined.

Lemma normal_end_means_complete_run_witness :
  exists config' resp,
    merge "example.com" "alpha" "10.0.0.5" "https" example_config = Ok config' /\
    requests_post (example_world 409)
      (cname_request "token" "zone" "alpha.example.com" "example.com") =
    Some resp.
Proof.
  assert (Hrun : main (example_world 409) (example_state example_answers) =
                 (Done tt,
                  snd (main (example_world 409) (example_state example_answers))))
    by (vm_compute; reflexivity).
  destruct (normal_end_means_complete_run (codec := tree_codec)
              (example_world 409) (example_state example_answers)
              (snd (main (example_world 409) (example_state example_answers)))
              Hrun)
    as (prog & cf & c & config & s & ip & answer & rest & config' & resp
        & ac & adoc & adoc' & _ & _ & Hf & Hl & Hin & _ & Hm & Hpost & _).
  cbn in Hin. injection Hin as <- <- <- <-.
  assert (Ecf : cf = "config.yml").
  { destruct (String.eqb_spec cf "config.yml") as [E|E]; [exact E|].
    exfalso. apply String.eqb_neq in E. cbn [example_state files] in Hf.
    rewrite E in Hf.
    destruct (cf =? authelia_config_path) eqn:E2; [|discriminate].
    apply String.eqb_eq in E2. subst cf.
    injection Hf as <-. cbn in Hl. injection Hl as <-. discriminate Hm. }
  subst cf. cbn in Hf. injection Hf as <-. cbn in Hl. injection Hl as <-.
  exists config', resp. split; assumption.
Defined.

Lemma complete_run_leaves_four_files_witness :
  exists st',
    main (example_world 201) (example_state example_answers) = (Done tt, st') /\
    files st' "./backups/config_backup_20240131_235959.yml" = Some example_config /\
    files st' "config.yml" = Some example_merged /\
    files st' "/mnt/user/appdata/Authelia/backups/configuration_backup_20240131_235959.yml" =
    Some example_authelia /\
    files st' authelia_config_path = Some example_authelia_updated.
Proof.
  apply (complete_run_leaves_four_files (codec := tree_codec) (example_world 201)
           "update_traefik_and_cloudflare_authelia.py" "config.yml"
           example_config example_config "alpha" "10.0.0.5" " HTTPS " []
           example_merged {| status_code := 201; text := "{}" |}
           example_authelia example_authelia example_authelia_updated
           (example_state example_answers));
    try reflexivity; discriminate.
Defined.

Section Rejected.
Context {content : Type} {codec : YamlCodec content}.
Variable w : world.

(** X19.  The scheme is checked only after the backup was written: when
    the answer is rejected the run has made the backup directory and the
    backup file, but the routing document still holds what it held, the
    access-control document is untouched and no request was sent. *)
Theorem rejected_scheme_leaves_documents
  prog config_file c config s ip answer rest (st : state content) :
  settings_present w = true ->
  sys_argv w = [prog; config_file] ->
  files st config_file = Some c ->
  yaml_safe_load c = Some config ->
  stdin st = s :: ip :: answer :: rest ->
  valid_scheme (lower (strip answer)) = false ->
  config_file <> backup_file_of (now w) ->
  exit_code (fst (main w st)) = 1%Z /\
  files (snd (main w st)) config_file = Some c /\
  files (snd (main w st)) (backup_file_of (now w)) = Some (yaml_dump config) /\
  In backup_dir (dirs (snd (main w st))) /\
  files (snd (main w st)) authelia_config_path = files st authelia_config_path /\
  posted (snd (main w st)) = posted st.
Proof.
  intros Hset Hargv Hf Hl Hin Hsch Hne.
  rewrite (main_invalid_scheme w _ _ _ _ _ _ _ _ _ Hset Hargv Hf Hl Hin Hsch).
  split; [reflexivity|].
  cbn [snd answered backed_up asked say wrote made files posted dirs].
  unfold write_content.
  apply String.eqb_neq in Hne.
  rewrite Hne, String.eqb_refl, authelia_not_backup_file.
  repeat split; try assumption.
  destruct (existsb (String.eqb backup_dir) (dirs st)) eqn:E.
  - apply existsb_exists in E as (d & Hd & Heq).
    apply String.eqb_eq in Heq. now subst d.
  - apply in_or_app. right. now left.
Qed.

End Rejected.

Lemma rejected_scheme_leaves_documents_witness :
  let st := example_state ["alpha"; "10.0.0.5"; "ftp"] in
  exit_code (fst (main (example_world 200) st)) = 1%Z /\
  files (snd (main (example_world 200) st)) "config.yml" = Some example_config /\
  posted (snd (main (example_world 200) st)) = [].
Proof.
  intros st.
  destruct (rejected_scheme_leaves_documents (codec := tree_codec)
              (example_world 200)
              "update_traefik_and_cloudflare_authelia.py" "config.yml"
              example_config example_config "alpha" "10.0.0.5" "ftp" [] st
              eq_refl eq_refl eq_refl eq_refl eq_refl eq_refl
              ltac:(discriminate))
    as (He & Hc & _ & _ & _ & Hp).
  repeat split; assumption.
Defined.

(** * The access-control update, read from its result *)






(** * The new entries of a complete run *)

Section Entries.
Context {content : Type} {codec : YamlCodec content}.
Variable w : world.

(** C8.  In a complete run with service name [s] and base domain [d], the
    router stored under [s] names the service [s-svc] and has the rule
    [Host(`s.d`)], the services mapping has the key [s-svc], the one DNS
    request sent carries the name [s.d], and in the access-control
    document written the domain list of the first [one_factor] rule ends
    with [s.d]. *)
Theorem new_entries_use_service_and_subdomain
  prog config_file c config top http routers services s ip answer rest resp
  ac adoc atop aac arules (st : state content) :
  settings_present w = true ->
  sys_argv w = [prog; config_file] ->
  files st config_file = Some c ->
  yaml_safe_load c = Some config ->
  routing_document config top http routers services ->
  stdin st = s :: ip :: answer :: rest ->
  valid_scheme (lower (strip answer)) = true ->
  let d := the (DOMAIN_NAME w) in
  let subdomain := (s ++ "." ++ d)%string in
  forall config',
  merge d s ip (lower (strip answer)) config = Ok config' ->
  requests_post w
    (cname_request (the (CLOUDFLARE_API_TOKEN w)) (the (CLOUDFLARE_ZONE_ID w))
       subdomain d) = Some resp ->
  files (saved config_file config' (answered s (backed_up w config st)))
    authelia_config_path = Some ac ->
  yaml_safe_load ac = Some adoc ->
  access_document adoc atop aac arules ->
  exists R S router st' adoc' rules' domains,
    section_of config' "routers" = Ok (YMap R) /\
    section_of config' "services" = Ok (YMap S) /\
    dict_get R s = Some router /\
    getitem router "service" = Ok (YStr (s ++ "-svc")%string) /\
    getitem router "rule" = Ok (YStr ("Host(`" ++ subdomain ++ "`)")%string) /\
    In (s ++ "-svc")%string (keys S) /\
    dict_get S (s ++ "-svc")%string =
      Some (service_definition (lower (strip answer)) ip) /\
    main w st = (Done tt, st') /\
    (exists request,
        posted st' = posted st ++ [request] /\
        dict_get (req_json request) "name" = Some (YStr subdomain)) /\
    files st' authelia_config_path = Some (yaml_dump adoc') /\
    rules_of adoc' = Ok (YSeq rules') /\
    first_one_factor_domain rules' = Some (YSeq (domains ++ [YStr subdomain])).
Proof.
  intros Hset Hargv Hf Hl Hdoc Hin Hsch d subdomain config' Hm Hpost Haf Hal Hadoc.
  destruct (update_once_shape subdomain _ _ _ _ Hadoc)
    as (b & rd & ds & a & Hup & _ & Hb & Hr & Hd).
  pose proof (main_run w _ _ _ _ _ _ _ _ _ _ _ _ _ _
                Hset Hargv Hf Hl Hin Hsch Hm Hpost Haf Hal Hup) as Hrun.
  rewrite (merge_run d s ip (lower (strip answer)) _ _ _ _ _ Hdoc) in Hm.
  injection Hm as <-.
  eexists _, _, (router_definition s d), _, _, _, ds.
  split; [apply section_of_routers|]. split; [apply section_of_services|].
  split; [now rewrite dict_get_merged, String.eqb_refl|].
  split; [reflexivity|].
  split.
  { unfold subdomain. cbn. now rewrite !str_app_assoc. }
  change (fstr [s; "-svc"]) with (s ++ "-svc")%string.
  split.
  { apply In_keys_dict_get. rewrite dict_get_merged, String.eqb_refl.
    discriminate. }
  split; [now rewrite dict_get_merged, String.eqb_refl|].
  split; [exact Hrun|]. split.
  { eexists. split; reflexivity. }
  split.
  { cbn [authelia_updated say wrote files]. unfold write_content.
    now rewrite String.eqb_refl. }
  split; [apply rules_of_with_rules|].
  unfold first_one_factor_domain. now rewrite find_one_factor_app.
Qed.

End Entries.

Lemma new_entries_use_service_and_subdomain_witness :
  exists st' request,
    main (example_world 201) (example_state example_answers) = (Done tt, st') /\
    posted st' = [request] /\
    dict_get (req_json request) "name" = Some (YStr "alpha.example.com") /\
    files st' authelia_config_path =
    Some (YMap [("access_control",
                 YMap [("default_policy", YStr "deny");
                       ("rules",
                        YSeq [YMap [("domain", YSeq [YStr "vault.example.com"]);
                                    ("policy", YStr "two_factor")];
                              YMap [("domain",
                                     YSeq [YStr "zeta.example.com";
                                           YStr "alpha.example.com"]);
                                    ("policy", YStr "one_factor")]])])]).
Proof.
  destruct (new_entries_use_service_and_subdomain (codec := tree_codec)
              (example_world 201)
              "update_traefik_and_cloudflare_authelia.py" "config.yml"
              example_config example_config example_top example_http
              example_routers example_services "alpha" "10.0.0.5" " HTTPS " []
              {| status_code := 201; text := "{}" |}
              example_authelia example_authelia example_authelia_top
              example_access_control example_rules
              (example_state example_answers)
              eq_refl eq_refl eq_refl eq_refl example_config_routing_document
              eq_refl eq_refl example_merged
              eq_refl eq_refl eq_refl eq_refl
              ltac:(repeat split; reflexivity))
    as (R & S & router & st' & adoc' & rules' & ds & _ & _ & _ & _ & _ & _ & _
        & Hrun & Hreq & Hf & _).
  destruct Hreq as (request & Hp & Hn).
  exists st', request. repeat split; try assumption.
  assert (E : snd (main (example_world 201) (example_state example_answers)) = st')
    by now rewrite Hrun.
  rewrite <- E. reflexivity.
Defined.

(** * The scheme check, letter by letter *)

Lemma lower_char_h c : lower_char c = "h"%char <-> (c = "h" \/ c = "H")%char.
Proof.
  destruct c as [[] [] [] [] [] [] [] []]; cbv; split;
    try (intros H; discriminate H); try (intros [H|H]; discriminate H); auto.
Qed.

Lemma lower_char_t c : lower_char c = "t"%char <-> (c = "t" \/ c = "T")%char.
Proof.
  destruct c as [[] [] [] [] [] [] [] []]; cbv; split;
    try (intros H; discriminate H); try (intros [H|H]; discriminate H); auto.
Qed.

Lemma lower_char_p c : lower_char c = "p"%char <-> (c = "p" \/ c = "P")%char.
Proof.
  destruct c as [[] [] [] [] [] [] [] []]; cbv; split;
    try (intros H; discriminate H); try (intros [H|H]; discriminate H); auto.
Qed.

Lemma lower_char_s c : lower_char c = "s"%char <-> (c = "s" \/ c = "S")%char.
Proof.
  destruct c as [[] [] [] [] [] [] [] []]; cbv; split;
    try (intros H; discriminate H); try (intros [H|H]; discriminate H); auto.
Qed.

Lemma lower_http_iff body : lower body = "http" <-> spells_http body.
Proof.
  unfold spells_http. split.
  - destruct body as [|c1 [|c2 [|c3 [|c4 [|c5 r]]]]]; try discriminate.
    cbn [lower]. intros H. injection H as H1 H2 H3 H4.
    exists c1, c2, c3, c4. split; [reflexivity|].
    now rewrite <- lower_char_h, <- !lower_char_t, <- lower_char_p.
  - intros (c1 & c2 & c3 & c4 & -> & H1 & H2 & H3 & H4). cbn [lower].
    apply lower_char_h in H1. apply lower_char_t in H2, H3.
    apply lower_char_p in H4. now rewrite H1, H2, H3, H4.
Qed.

Lemma lower_https_iff body : lower body = "https" <-> spells_https body.
Proof.
  unfold spells_https. split.
  - destruct body as [|c1 [|c2 [|c3 [|c4 [|c5 [|c6 r]]]]]]; try discriminate.
    cbn [lower]. intros H. injection H as H1 H2 H3 H4 H5.
    exists c1, c2, c3, c4, c5. split; [reflexivity|].
    now rewrite <- lower_char_h, <- !lower_char_t, <- lower_char_p,
      <- lower_char_s.
  - intros (c1 & c2 & c3 & c4 & c5 & -> & H1 & H2 & H3 & H4 & H5).
    cbn [lower].
    apply lower_char_h in H1. apply lower_char_t in H2, H3.
    apply lower_char_p in H4. apply lower_char_s in H5.
    now rewrite H1, H2, H3, H4, H5.
Qed.

Lemma strip_split answer :
  exists l r,
    answer = (l ++ strip answer ++ r)%string /\
    all_space l = true /\ all_space r = true.
Proof.
  unfold strip.
  destruct (lstrip_split answer) as (l & El & Hl).
  destruct (rstrip_split (lstrip answer)) as (r & Er & Hr).
  exists l, r. split; [now rewrite <- Er|auto].
Qed.

Lemma normalises_to_http answer :
  lower (strip answer) = "http" <-> padded spells_http answer.
Proof.
  unfold padded. split.
  - intros H. destruct (strip_split answer) as (l & r & E & Hl & Hr).
    exists l, (strip answer), r. rewrite <- lower_http_iff. auto.
  - intros (l & body & r & -> & Hl & Hr & Hb). apply lower_http_iff in Hb.
    rewrite <- strip_lower, !lower_app, Hb.
    rewrite <- all_space_lower in Hl, Hr. now apply strip_padded_http.
Qed.

Lemma normalises_to_https answer :
  lower (strip answer) = "https" <-> padded spells_https answer.
Proof.
  unfold padded. split.
  - intros H. destruct (strip_split answer) as (l & r & E & Hl & Hr).
    exists l, (strip answer), r. rewrite <- lower_https_iff. auto.
  - intros (l & body & r & -> & Hl & Hr & Hb). apply lower_https_iff in Hb.
    rewrite <- strip_lower, !lower_app, Hb.
    rewrite <- all_space_lower in Hl, Hr. now apply strip_padded_https.
Qed.

Lemma service_url_merged top http R (services : dict) s sch ip :
  service_url
    (YMap (dict_set top "http"
             (YMap (dict_set (dict_set http "routers" R) "services"
                      (YMap (sorted_items
                               (dict_set services (s ++ "-svc")%string
                                  (service_definition sch ip))))))))
    (s ++ "-svc")%string =
  Ok (YStr (sch ++ "://" ++ ip ++ "/")%string).
Proof.
  unfold service_url. rewrite section_of_services. cbn [rbind getitem].
  rewrite dict_get_merged, String.eqb_refl. reflexivity.
Qed.

Section Scheme.
Context {content : Type} {codec : YamlCodec content}.
Variable w : world.

(** C5.  The answer to the scheme prompt is accepted exactly when it is
    [http] or [https] with each letter in either case and with only
    whitespace before and after it.  Then the run goes on with the
    lowercase word, and the service stored in the overwritten routing
    document has the URL [http://<ip>/] or [https://<ip>/]; for the
    answer [HTTPS] it is [https://<ip>/].  Any other answer makes the run
    print the diagnostic and exit with code 1. *)
Theorem scheme_is_normalised_and_checked
  prog config_file c config s ip answer rest (st : state content) :
  settings_present w = true ->
  sys_argv w = [prog; config_file] ->
  files st config_file = Some c ->
  yaml_safe_load c = Some config ->
  stdin st = s :: ip :: answer :: rest ->
  let goes_on_with (scheme : string) :=
    forall top http routers services,
      routing_document config top http routers services ->
      exists config',
        merge (the (DOMAIN_NAME w)) s ip scheme config = Ok config' /\
        main w st =
        publish w (now w) (the (CLOUDFLARE_API_TOKEN w))
          (the (CLOUDFLARE_ZONE_ID w)) (the (DOMAIN_NAME w)) s
          (saved config_file config' (answered s (backed_up w config st))) /\
        files (saved config_file config' (answered s (backed_up w config st)))
          config_file = Some (yaml_dump config') /\
        service_url config' (s ++ "-svc")%string =
        Ok (YStr (scheme ++ "://" ++ ip ++ "/")%string) in
  (padded spells_http answer ->
   lower (strip answer) = "http" /\ goes_on_with "http") /\
  (padded spells_https answer ->
   lower (strip answer) = "https" /\ goes_on_with "https") /\
  (~ padded spells_http answer -> ~ padded spells_https answer ->
   main w st =
   (SysExit 1, say scheme_diagnostic (answered s (backed_up w config st))) /\
   exit_code (fst (main w st)) = 1%Z) /\
  (answer = "HTTPS" -> goes_on_with "https").
Proof.
  intros Hset Hargv Hf Hl Hin goes_on_with.
  assert (Hgo : forall scheme,
             lower (strip answer) = scheme ->
             scheme = "http" \/ scheme = "https" -> goes_on_with scheme).
  { intros scheme Hn Hv top http routers services Hdoc.
    apply valid_scheme_iff in Hv. rewrite <- Hn in Hv.
    pose proof (merge_run (the (DOMAIN_NAME w)) s ip scheme _ _ _ _ _ Hdoc)
      as Hm.
    eexists. split; [exact Hm|]. rewrite <- Hn in Hm at 1.
    split; [exact (main_reaches_publish w _ _ _ _ _ _ _ _ _ _
                     Hset Hargv Hf Hl Hin Hv Hm)|].
    split; [cbn [saved say wrote files]; unfold write_content;
            now rewrite String.eqb_refl|].
    change (fstr [s; "-svc"]) with (s ++ "-svc")%string.
    apply service_url_merged. }
  split; [|split; [|split]].
  - intros H. apply normalises_to_http in H. split; [exact H|].
    apply Hgo; auto.
  - intros H. apply normalises_to_https in H. split; [exact H|].
    apply Hgo; auto.
  - intros H1 H2.
    assert (Hv : valid_scheme (lower (strip answer)) = false).
    { destruct (valid_scheme (lower (strip answer))) eqn:E; [|reflexivity].
      apply valid_scheme_iff in E as [E|E].
      - now apply normalises_to_http in E.
      - now apply normalises_to_https in E. }
    rewrite (main_invalid_scheme w _ _ _ _ _ _ _ _ _ Hset Hargv Hf Hl Hin Hv).
    split; reflexivity.
  - intros ->. apply Hgo; [reflexivity|now right].
Qed.

End Scheme.

Lemma scheme_is_normalised_and_checked_witness :
  padded spells_https " HTTPS " /\
  lower (strip " HTTPS ") = "https" /\
  exists config',
    merge "example.com" "alpha" "10.0.0.5" "https" example_config = Ok config' /\
    service_url config' "alpha-svc" = Ok (YStr "https://10.0.0.5/").
Proof.
  assert (Hp : padded spells_https " HTTPS ").
  { exists " ", "HTTPS", " ". repeat split.
    exists "H"%char, "T"%char, "T"%char, "P"%char, "S"%char. tauto. }
  split; [exact Hp|].
  destruct (scheme_is_normalised_and_checked (codec := tree_codec)
              (example_world 409)
              "update_traefik_and_cloudflare_authelia.py" "config.yml"
              example_config example_config "alpha" "10.0.0.5" " HTTPS " []
              (example_state example_answers)
              eq_refl eq_refl eq_refl eq_refl eq_refl) as (_ & Hhttps & _).
  destruct (Hhttps Hp) as (Hn & Hgo). split; [exact Hn|].
  destruct (Hgo _ _ _ _ example_config_routing_document)
    as (config' & Hm & _ & _ & Hu).
  exists config'. split; assumption.
Defined.

(** * When the rule update returns *)

(** X5.  The rule update returns, rather than raises, exactly in two
    cases: the value is a sequence in which every element is a mapping
    with a [policy] other than [one_factor]; or it is a sequence whose
    first [one_factor] rule has a sequence under [domain] and is preceded
    only by mappings with another [policy].  What follows the first
    [one_factor] rule is not looked at. *)
Theorem update_rules_returns_iff sub rules :
  (exists rules', update_rules sub rules = Ok rules') <->
  exists items,
    rules = YSeq items /\
    (forallb skipped items = true \/
     exists before rule ds after,
       items = before ++ rule :: after /\
       forallb skipped before = true /\
       one_factor rule = true /\
       getitem rule "domain" = Ok (YSeq ds)).
Proof.
  split.
  - intros (rules' & H).
    destruct rules as [| | |s|items|m]; try discriminate.
    + destruct s; discriminate.
    + exists items. split; [reflexivity|]. cbn [update_rules] in H.
      destruct (scan_rules sub items) as [[x|]|] eqn:Hs; try discriminate.
      * right.
        apply scan_rules_Some_inv in Hs as (b & d & ds & a & E & Hb & Hr & Hd & _).
        exists b, (YMap d), ds, a. repeat split; try assumption.
        cbn [getitem]. now rewrite Hd.
      * left. now apply (scan_rules_None_iff sub).
    + destruct m; discriminate.
  - intros (items & -> & [Hs|(b & rule & ds & a & -> & Hb & Hr & Hd)]).
    + cbn [update_rules]. apply (scan_rules_None_iff sub) in Hs.
      rewrite Hs. eexists. reflexivity.
    + destruct rule as [| | | | |d]; try discriminate.
      cbn [getitem] in Hd.
      destruct (dict_get d "domain") as [v|] eqn:Hv; [|discriminate].
      injection Hd as ->. cbn [update_rules].
      rewrite (scan_rules_stops_at_first _ _ _ _ _ Hb Hr Hv).
      eexists. reflexivity.
Qed.

(** * The one request of a run *)

Section OneRequest.
Context {content : Type} {codec : YamlCodec content}.
Variable w : world.

Lemma read_inputs_sends_nothing (st : state content) :
  posted (snd (read_inputs st)) = posted st.
Proof.
  assert (H : run_spec (same_posted (content := content)) (fun _ => True)
                (read_inputs (content := content))).
  { apply spec_read_inputs; unfold same_posted; intros;
      try reflexivity; congruence. }
  exact (proj1 (H st)).
Qed.

Lemma after_dns_sends_nothing s (st : state content) :
  posted
    (snd (bind (update_authelia_config (now w) authelia_config_path
                  (new_subdomain s (the (DOMAIN_NAME w))))
            (fun _ =>
               print (fstr ["Authelia configuration updated with new subdomain ";
                            new_subdomain s (the (DOMAIN_NAME w))])) st)) =
  posted st.
Proof.
  assert (H : run_spec (same_posted (content := content)) (fun _ => True)
                (bind (update_authelia_config (now w) authelia_config_path
                         (new_subdomain s (the (DOMAIN_NAME w))))
                   (fun _ =>
                      print (fstr ["Authelia configuration updated with new subdomain ";
                                   new_subdomain s (the (DOMAIN_NAME w))])))).
  { apply spec_after_dns with (may_write := fun _ => True);
      unfold same_posted; intros; try reflexivity; try congruence; exact I. }
  exact (proj1 (H st)).
Qed.

Lemma publish_sends_once token zone s (st : state content) :
  posted (snd (publish w (now w) token zone (the (DOMAIN_NAME w)) s st)) =
  posted st ++
  [cname_request token zone (fstr [s; "."; the (DOMAIN_NAME w)])
     (the (DOMAIN_NAME w))].
Proof.
  unfold publish. unfold bind at 1.
  pose proof (add_cname_posts_once w token zone
                (fstr [s; "."; the (DOMAIN_NAME w)]) (the (DOMAIN_NAME w)) st)
    as Hp.
  destruct (add_cname_record_to_cloudflare w token zone
              (fstr [s; "."; the (DOMAIN_NAME w)]) (the (DOMAIN_NAME w)) st)
    as [[[]|e|code] st1]; cbn [snd] in *; try exact Hp.
  rewrite <- Hp. apply after_dns_sends_nothing.
Qed.

(** X14.  Whatever happens, a run sends no request or exactly one, and
    that one is the CNAME request for [<first answer>.<domain>], with the
    domain as its target, built from the token and the zone of the
    settings; the first answer is the first line the terminal gave. *)
Theorem main_sends_at_most_one_request (st : state content) :
  posted (snd (main w st)) = posted st \/
  exists s rest,
    stdin st = s :: rest /\
    posted (snd (main w st)) =
    posted st ++
    [cname_request (the (CLOUDFLARE_API_TOKEN w)) (the (CLOUDFLARE_ZONE_ID w))
       (s ++ "." ++ the (DOMAIN_NAME w))%string (the (DOMAIN_NAME w))].
Proof.
  destruct (settings_present w) eqn:Hset.
  2:{ left. unfold main. pose proof (check_environment_run w st) as E.
      rewrite Hset in E. now rewrite (bind_SysExit _ _ _ _ _ E). }
  destruct (length (sys_argv w) =? 2)%nat eqn:Hlen.
  2:{ left. unfold main. pose proof (check_environment_run w st) as E.
      rewrite Hset in E. rewrite (bind_Done _ _ _ _ _ E).
      pose proof (check_usage_run w st) as U. rewrite Hlen in U.
      now rewrite (bind_SysExit _ _ _ _ _ U). }
  destruct (sys_argv w) as [|prog [|config_file [|]]] eqn:Hargv;
    try discriminate.
  rewrite (main_reaches_load w _ _ _ Hset Hargv).
  destruct (files st config_file) as [c|] eqn:Hf.
  2:{ left.
      assert (E : load_and_backup w config_file st =
                  (Uncaught FileNotFoundError, st))
        by (unfold load_and_backup, bind, load_file; now rewrite Hf).
      now rewrite (bind_Uncaught _ _ _ _ _ E). }
  destruct (yaml_safe_load c) as [config|] eqn:Hl.
  2:{ left.
      assert (E : load_and_backup w config_file st = (Uncaught YAMLError, st))
        by (unfold load_and_backup, bind, load_file; now rewrite Hf, Hl).
      now rewrite (bind_Uncaught _ _ _ _ _ E). }
  rewrite (bind_Done _ _ _ _ _ (load_and_backup_run w _ _ _ _ Hf Hl)).
  pose proof (read_inputs_sends_nothing (backed_up w config st)) as Hquiet.
  destruct (stdin st) as [|s [|ip [|answer rest]]] eqn:Hin.
  1-3: left;
    destruct (read_inputs_short (backed_up w config st)) as (st0 & E);
    [cbn [backed_up say wrote made stdin]; rewrite Hin; simpl; lia|];
    rewrite (bind_Uncaught _ _ _ _ _ E); rewrite E in Hquiet; exact Hquiet.
  assert (Hin' : stdin (backed_up w config st) = s :: ip :: answer :: rest)
    by exact Hin.
  pose proof (read_inputs_run _ _ _ _ _ Hin') as Rd.
  destruct (valid_scheme (lower (strip answer))) eqn:Hsch.
  2:{ left. now rewrite (bind_SysExit _ _ _ _ _ Rd). }
  rewrite (bind_Done _ _ _ _ _ Rd).
  destruct (merge (the (DOMAIN_NAME w)) s ip (lower (strip answer)) config)
    as [config'|e] eqn:Hm.
  2:{ left.
      assert (E : merge_and_save config_file (the (DOMAIN_NAME w)) s ip
                    (lower (strip answer)) config
                    (answered s (backed_up w config st)) =
                  (Uncaught e, answered s (backed_up w config st)))
        by (unfold merge_and_save, bind, lift; now rewrite Hm).
      now rewrite (bind_Uncaught _ _ _ _ _ E). }
  rewrite (bind_Done _ _ _ _ _
             (merge_and_save_run config_file _ _ _ _ _ _ _ Hm)).
  right. exists s, (ip :: answer :: rest). split; [reflexivity|].
  rewrite publish_sends_once. reflexivity.
Qed.

End OneRequest.

(** * The merge on documents with shared nodes *)

(** On [routers: &shared {...}, services: *shared] the services mapping
    ends with the router key as well. *)
Example h_merge_shared_services_keys :
  match h_merge "example.com" "alpha" "10.0.0.5" "http" shared_config
          shared_store with
  | Ok h' =>
      (match h_section h' shared_config "routers" with
       | Ok d => map fst d
       | Raise _ => []
       end,
       match h_section h' shared_config "services" with
       | Ok d => map fst d
       | Raise _ => []
       end)
  | Raise _ => ([], [])
  end =
  (["alpha"; "zeta"], ["alpha"; "alpha-svc"; "zeta"]).
Proof. reflexivity. Qed.

(** On the example document, which has no shared node, the merge on the
    object graph and the merge on the tree give the same document. *)
Example h_merge_example_config :
  let '(config, h) := build example_config [] in
  match h_merge "example.com" "alpha" "10.0.0.5" "https" config h with
  | Ok h' => tree_of 8 h' config
  | Raise _ => None
  end = Some example_merged.
Proof. reflexivity. Qed.

Section ItemsFacts.
Context {V : Type}.
Implicit Types d l : list (string * V).

Lemma odict_get_set_same d k (v : V) : odict_get (odict_set d k v) k = Some v.
Proof.
  induction d as [|[k' v'] r IH]; simpl.
  - now rewrite String.eqb_refl.
  - destruct (k' =? k) eqn:E; simpl; now rewrite E.
Qed.

Lemma odict_get_set_other d k (v : V) k' :
  k <> k' -> odict_get (odict_set d k v) k' = odict_get d k'.
Proof.
  intros Hne. induction d as [|[k0 v0] r IH]; simpl.
  - apply String.eqb_neq in Hne. now rewrite Hne.
  - destruct (String.eqb_spec k0 k) as [->|]; simpl.
    + apply String.eqb_neq in Hne. now rewrite Hne.
    + now rewrite IH.
Qed.

Lemma odict_get_None d k : odict_get d k = None <-> ~ In k (map fst d).
Proof.
  induction d as [|[k' v'] r IH]; simpl; [tauto|].
  destruct (String.eqb_spec k' k) as [->|]; [|tauto].
  split; [discriminate|]. tauto.
Qed.

Lemma odict_In_keys d k : In k (map fst d) <-> odict_get d k <> None.
Proof.
  pose proof (odict_get_None d k) as H.
  destruct (odict_get d k); split; intros; try congruence.
  - destruct (in_dec string_dec k (map fst d)); [assumption|].
    apply H in n. congruence.
  - exfalso. apply H; auto.
Qed.

Lemma odict_set_fresh d k (v : V) :
  ~ In k (map fst d) -> odict_set d k v = d ++ [(k, v)].
Proof.
  induction d as [|[k' v'] r IH]; simpl; [reflexivity|]. intros H.
  destruct (String.eqb_spec k' k) as [->|]; [tauto|].
  rewrite IH; tauto.
Qed.

Lemma okeys_dict_set d k (v : V) :
  map fst (odict_set d k v) =
  match odict_get d k with
  | Some _ => map fst d
  | None => map fst d ++ [k]
  end.
Proof.
  induction d as [|[k' v'] r IH]; simpl; [reflexivity|].
  destruct (String.eqb_spec k' k) as [->|]; simpl; [reflexivity|].
  rewrite IH. now destruct (odict_get r k).
Qed.

Lemma odict_set_NoDup d k (v : V) :
  NoDup (map fst d) -> NoDup (map fst (odict_set d k v)).
Proof.
  rewrite okeys_dict_set. intros H.
  destruct (odict_get d k) eqn:E; [assumption|].
  apply odict_get_None in E.
  apply NoDup_app; [assumption|repeat constructor; simpl; tauto|].
  intros x Hx [<-|[]]. tauto.
Qed.

Lemma odict_update_app acc l :
  NoDup (map fst (acc ++ l)) -> odict_update acc l = acc ++ l.
Proof.
  unfold odict_update. revert acc.
  induction l as [|[k v] r IH]; intros acc H; simpl.
  - now rewrite app_nil_r.
  - assert (Hk : ~ In k (map fst acc)).
    { rewrite map_app in H. simpl in H.
      apply NoDup_remove_2 in H. rewrite in_app_iff in H. tauto. }
    rewrite (odict_set_fresh _ _ _ Hk).
    replace (acc ++ (k, v) :: r) with ((acc ++ [(k, v)]) ++ r)
      by now rewrite <- app_assoc.
    apply IH. now rewrite <- app_assoc.
Qed.

Lemma oinsert_item_perm (kv : string * V) l :
  Permutation (kv :: l) (oinsert_item kv l).
Proof.
  induction l as [|kv' r IH]; simpl; [reflexivity|].
  destruct (String.ltb (fst kv') (fst kv)); [|reflexivity].
  rewrite perm_swap. now constructor.
Qed.

Lemma osorted_items_perm l : Permutation l (osorted_items l).
Proof.
  induction l as [|kv r IH]; simpl; [reflexivity|].
  rewrite <- oinsert_item_perm. now constructor.
Qed.

Lemma osorted_items_NoDup l :
  NoDup (map fst l) -> NoDup (map fst (osorted_items l)).
Proof.
  intros H. eapply Permutation_NoDup; [|exact H].
  apply Permutation_map, osorted_items_perm.
Qed.

Lemma odict_get_insert_item (kv : string * V) l k :
  odict_get (oinsert_item kv l) k =
  if fst kv =? k then Some (snd kv) else odict_get l k.
Proof.
  destruct kv as [k0 v0]; simpl.
  induction l as [|[k1 v1] r IH]; simpl; [reflexivity|].
  destruct (String.ltb k1 k0) eqn:E; simpl; [|reflexivity].
  rewrite IH. destruct (String.eqb_spec k0 k) as [->|]; [|reflexivity].
  apply ltb_neq in E. apply String.eqb_neq in E. now rewrite E.
Qed.

Lemma odict_get_sorted_items l k :
  odict_get (osorted_items l) k = odict_get l k.
Proof.
  induction l as [|[k0 v0] r IH]; simpl; [reflexivity|].
  rewrite odict_get_insert_item; simpl. now rewrite IH.
Qed.

(** What [dict(sorted(m.items()))] holds after [m.update({k: v})]. *)
Lemma odict_merged d k (v : V) :
  NoDup (map fst d) ->
  odict_of_items (osorted_items (odict_update d [(k, v)])) =
  osorted_items (odict_set d k v).
Proof.
  intros H. unfold odict_of_items. cbn [odict_update fold_left fst snd].
  rewrite odict_update_app; [reflexivity|].
  now apply osorted_items_NoDup, odict_set_NoDup.
Qed.

Lemma odict_get_merged d k (v : V) k' :
  odict_get (osorted_items (odict_set d k v)) k' =
  if k =? k' then Some v else odict_get d k'.
Proof.
  rewrite odict_get_sorted_items.
  destruct (String.eqb_spec k k') as [->|Hne].
  - apply odict_get_set_same.
  - now apply odict_get_set_other.
Qed.

Lemma omerged_keeps_keys d k (v : V) k' :
  In k' (map fst d) -> In k' (map fst (osorted_items (odict_set d k v))).
Proof.
  rewrite !odict_In_keys, odict_get_merged.
  destruct (k =? k'); congruence.
Qed.

End ItemsFacts.

(** ** The store *)

Lemma store_set_length h a o : length (store_set h a o) = length h.
Proof.
  revert a. induction h as [|x r IH]; intros [|a]; simpl; auto.
Qed.

Lemma store_set_same h a o :
  (a < length h)%nat -> nth_error (store_set h a o) a = Some o.
Proof.
  revert a. induction h as [|x r IH]; intros [|a] H; simpl in *; try lia.
  - reflexivity.
  - apply IH. lia.
Qed.

Lemma store_set_other h a o b :
  a <> b -> nth_error (store_set h a o) b = nth_error h b.
Proof.
  revert a b.
  induction h as [|x r IH]; intros [|a] [|b] H; simpl;
    try reflexivity; try congruence.
  apply IH. congruence.
Qed.

Lemma nth_error_in_range {A} (l : list A) a x :
  nth_error l a = Some x -> (a < length l)%nat.
Proof. intros H. apply nth_error_Some. congruence. Qed.

Lemma nth_error_grown {A} (l ext : list A) a x :
  nth_error l a = Some x -> nth_error (l ++ ext) a = Some x.
Proof.
  intros H. rewrite nth_error_app1; [exact H|].
  now apply nth_error_in_range with (x := x).
Qed.

Lemma nth_error_new {A} (l : list A) x : nth_error (l ++ [x]) (length l) = Some x.
Proof. rewrite nth_error_app2, Nat.sub_diag by lia. reflexivity. Qed.

(** What a value reads as depends only on the objects it reaches. *)
Lemma tree_of_frame depth h h' x :
  (forall a, reaches h x a -> nth_error h' a = nth_error h a) ->
  tree_of depth h' x = tree_of depth h x.
Proof.
  revert x. induction depth as [|n IH]; intros x Hsame; [reflexivity|].
  destruct x as [| | | |a]; try reflexivity.
  cbn [tree_of]. rewrite (Hsame a (reaches_here h a)).
  destruct (nth_error h a) as [[items|items]|] eqn:Ha; [| |reflexivity].
  - f_equal.
    assert (Hl : forall l, incl l items ->
              fold_right
                (fun kv acc =>
                   match tree_of n h' (snd kv), acc with
                   | Some y, Some r => Some ((fst kv, y) :: r)
                   | _, _ => None
                   end) (Some []) l =
              fold_right
                (fun kv acc =>
                   match tree_of n h (snd kv), acc with
                   | Some y, Some r => Some ((fst kv, y) :: r)
                   | _, _ => None
                   end) (Some []) l).
    { induction l as [|kv l IHl]; intros Hin; [reflexivity|].
      cbn [fold_right]. rewrite IHl by (intros y Hy; apply Hin; now right).
      rewrite IH; [reflexivity|].
      intros b Hb. apply Hsame.
      apply reaches_on with (o := OMap items) (x := snd kv); try assumption.
      cbn [refs]. apply in_map, Hin. now left. }
    apply Hl, incl_refl.
  - f_equal.
    assert (Hl : forall l, incl l items ->
              fold_right
                (fun v acc =>
                   match tree_of n h' v, acc with
                   | Some y, Some r => Some (y :: r)
                   | _, _ => None
                   end) (Some []) l =
              fold_right
                (fun v acc =>
                   match tree_of n h v, acc with
                   | Some y, Some r => Some (y :: r)
                   | _, _ => None
                   end) (Some []) l).
    { induction l as [|v l IHl]; intros Hin; [reflexivity|].
      cbn [fold_right]. rewrite IHl by (intros y Hy; apply Hin; now right).
      rewrite IH; [reflexivity|].
      intros b Hb. apply Hsame.
      apply reaches_on with (o := OSeq items) (x := v); try assumption.
      cbn [refs]. apply Hin. now left. }
    apply Hl, incl_refl.
Qed.

(** The two literals add objects and leave the ones there are alone. *)
Lemma build_router_definition s D h :
  exists x ext, build (router_definition s D) h = (x, h ++ ext).
Proof.
  cbn [build router_definition]. eexists _, _.
  rewrite <- !app_assoc. reflexivity.
Qed.

Lemma build_service_definition sch ip h :
  exists x ext, build (service_definition sch ip) h = (x, h ++ ext).
Proof.
  cbn [build service_definition]. eexists _, _.
  rewrite <- !app_assoc. reflexivity.
Qed.

(** One section of the merge, when the mapping [m] of the section is
    neither the document object nor the [http] object: [m] is updated in
    place, its sorted copy is a new object, and the [http] object refers
    to the copy. *)
Lemma h_merge_section_run h c p m top http items section k x :
  nth_error h c = Some (OMap top) ->
  odict_get top "http" = Some (VRef p) ->
  nth_error h p = Some (OMap http) ->
  odict_get http section = Some (VRef m) ->
  nth_error h m = Some (OMap items) ->
  NoDup (map fst items) ->
  c <> m -> p <> m -> section <> "http" ->
  exists h1 top1,
    h_merge_section section [(k, x)] (VRef c) h = Ok h1 /\
    length h1 = S (length h) /\
    nth_error h1 c = Some (OMap top1) /\
    odict_get top1 "http" = Some (VRef p) /\
    nth_error h1 p = Some (OMap (odict_set http section (VRef (length h)))) /\
    nth_error h1 m = Some (OMap (odict_set items k x)) /\
    nth_error h1 (length h) =
      Some (OMap (osorted_items (odict_set items k x))) /\
    (forall a, a <> p -> a <> m -> (a < length h)%nat ->
               nth_error h1 a = nth_error h a).
Proof.
  intros Hc Htop Hp Hsec Hm Hnd Hcm Hpm Hsn.
  assert (Lm : (m < length h)%nat) by now apply nth_error_in_range in Hm.
  assert (Lc : (c < length h)%nat) by now apply nth_error_in_range in Hc.
  assert (Lp : (p < length h)%nat) by now apply nth_error_in_range in Hp.
  set (h1 := store_set
               (store_set h m (OMap (odict_set items k x)) ++
                [OMap (osorted_items (odict_set items k x))])
               p (OMap (odict_set http section (VRef (length h))))).
  assert (Hrun : h_merge_section section [(k, x)] (VRef c) h = Ok h1).
  { unfold h_merge_section. cbn [h_getitem]. rewrite Hc, Htop.
    cbn [rbind h_getitem]. rewrite Hp, Hsec. cbn [rbind h_update]. rewrite Hm.
    cbn [rbind h_sorted_dict]. rewrite (store_set_same _ _ _ Lm).
    cbn [rbind fst snd h_getitem]. rewrite store_set_length.
    rewrite nth_error_app1 by now rewrite store_set_length.
    rewrite store_set_other by congruence. rewrite Hc, Htop.
    cbn [rbind h_setitem].
    rewrite nth_error_app1 by now rewrite store_set_length.
    rewrite store_set_other by congruence. rewrite Hp.
    now rewrite (odict_merged _ _ _ Hnd). }
  assert (Hat_p : nth_error h1 p =
                  Some (OMap (odict_set http section (VRef (length h))))).
  { unfold h1. apply store_set_same.
    rewrite length_app, store_set_length. simpl. lia. }
  assert (Hframe : forall a, a <> p -> (a < length h)%nat ->
            nth_error h1 a =
            nth_error (store_set h m (OMap (odict_set items k x))) a).
  { intros a Hap La. unfold h1. rewrite store_set_other by congruence.
    apply nth_error_app1. now rewrite store_set_length. }
  assert (Hc1 : exists top1, nth_error h1 c = Some (OMap top1) /\
                             odict_get top1 "http" = Some (VRef p)).
  { destruct (Nat.eq_dec c p) as [->|Hcp].
    - eexists. split; [exact Hat_p|].
      rewrite odict_get_set_other by assumption.
      rewrite Hc in Hp. now injection Hp as <-.
    - exists top. split; [|assumption].
      rewrite Hframe by assumption. now rewrite store_set_other by congruence. }
  destruct Hc1 as (top1 & Hc1 & Htop1).
  exists h1, top1. repeat split; try assumption.
  - unfold h1. rewrite store_set_length, length_app, store_set_length.
    simpl. lia.
  - rewrite Hframe by (congruence || assumption). now apply store_set_same.
  - unfold h1. rewrite store_set_other by lia.
    rewrite <- (store_set_length h m (OMap (odict_set items k x))).
    apply nth_error_new.
  - intros a Hap Ham La. rewrite Hframe by assumption.
    apply store_set_other. congruence.
Qed.

(** Both sections, when the routers mapping and the services mapping are
    two objects and neither is the document object or the [http] object. *)
Lemma h_merge_sections_run h c p r v routers services k1 x1 k2 x2 :
  routing_graph h (VRef c) c p r v routers services ->
  r <> v -> c <> r -> p <> r -> c <> v -> p <> v ->
  exists h1 h2,
    h_merge_section "routers" [(k1, x1)] (VRef c) h = Ok h1 /\
    h_merge_section "services" [(k2, x2)] (VRef c) h1 = Ok h2 /\
    h_section h2 (VRef c) "routers" =
      Ok (osorted_items (odict_set routers k1 x1)) /\
    h_section h2 (VRef c) "services" =
      Ok (osorted_items (odict_set services k2 x2)) /\
    (forall a, a <> p -> a <> r -> a <> v -> (a < length h)%nat ->
               nth_error h2 a = nth_error h a).
Proof.
  intros (top & http & _ & Hc & Htop & Hp & Hr & Hv & Hrs & Hss & Hndr & Hnds)
         Hrv Hcr Hpr Hcv Hpv.
  assert (Lv : (v < length h)%nat) by now apply nth_error_in_range in Hss.
  assert (Lp : (p < length h)%nat) by now apply nth_error_in_range in Hp.
  destruct (h_merge_section_run h c p r top http routers "routers" k1 x1)
    as (h1 & top1 & Hrun1 & Hlen1 & Hc1 & Htop1 & Hp1 & _ & Hnew1 & Hframe1);
    try assumption; try discriminate.
  assert (Hv1 : nth_error h1 v = Some (OMap services)).
  { rewrite Hframe1; congruence || assumption. }
  destruct (h_merge_section_run h1 c p v top1
              (odict_set http "routers" (VRef (length h))) services
              "services" k2 x2)
    as (h2 & top2 & Hrun2 & Hlen2 & Hc2 & Htop2 & Hp2 & _ & Hnew2 & Hframe2);
    try assumption; try discriminate.
  { now rewrite odict_get_set_other by discriminate. }
  exists h1, h2. split; [assumption|]. split; [assumption|].
  assert (Hhttp : h_getitem h2 (VRef c) "http" = Ok (VRef p)).
  { cbn [h_getitem]. now rewrite Hc2, Htop2. }
  split; [|split].
  - unfold h_section. rewrite Hhttp. cbn [rbind h_getitem]. rewrite Hp2.
    rewrite odict_get_set_other by discriminate.
    rewrite odict_get_set_same. cbn [rbind].
    rewrite Hframe2 by lia. now rewrite Hnew1.
  - unfold h_section. rewrite Hhttp. cbn [rbind h_getitem]. rewrite Hp2.
    rewrite odict_get_set_same. cbn [rbind]. now rewrite Hnew2.
  - intros a Hap Har Hav La.
    rewrite Hframe2 by (assumption || lia). now apply Hframe1.
Qed.

Lemma routing_graph_grown h ext config c p r v routers services :
  routing_graph h config c p r v routers services ->
  routing_graph (h ++ ext) config c p r v routers services.
Proof.
  intros (top & http & Hcfg & Hc & Htop & Hp & Hr & Hv & Hrs & Hss & Hnd).
  exists top, http. repeat split; try tauto; now apply nth_error_grown.
Qed.

Lemma h_section_graph h config c p r v routers services :
  routing_graph h config c p r v routers services ->
  h_section h config "routers" = Ok routers /\
  h_section h config "services" = Ok services.
Proof.
  intros (top & http & -> & Hc & Htop & Hp & Hr & Hv & Hrs & Hss & _).
  unfold h_section. cbn [h_getitem]. rewrite Hc, Htop. cbn [rbind h_getitem].
  rewrite Hp, Hr, Hv. cbn [rbind]. now rewrite Hrs, Hss.
Qed.

(** The merge on a document whose routers and services mappings are two
    objects of their own. *)
Lemma h_merge_run D s ip sch h c p r v routers services :
  routing_graph h (VRef c) c p r v routers services ->
  r <> v -> c <> r -> p <> r -> c <> v -> p <> v ->
  exists h' router service,
    h_merge D s ip sch (VRef c) h = Ok h' /\
    h_section h' (VRef c) "routers" =
      Ok (osorted_items (odict_set routers s router)) /\
    h_section h' (VRef c) "services" =
      Ok (osorted_items (odict_set services (s ++ "-svc") service)) /\
    (forall a, a <> p -> a <> r -> a <> v -> (a < length h)%nat ->
               nth_error h' a = nth_error h a).
Proof.
  intros Hg Hrv Hcr Hpr Hcv Hpv. unfold h_merge.
  destruct (build_router_definition s D h) as (router & ext1 & ->).
  destruct (build_service_definition sch ip (h ++ ext1))
    as (service & ext2 & ->).
  rewrite <- app_assoc.
  destruct (h_merge_sections_run (h ++ ext1 ++ ext2) c p r v routers services
              s router (fstr [s; "-svc"]) service)
    as (h1 & h2 & Hrun1 & Hrun2 & HR & HS & Hframe);
    try assumption; [now apply routing_graph_grown|].
  exists h2, router, service. rewrite Hrun1. cbn [rbind]. rewrite Hrun2.
  replace (fstr [s; "-svc"]) with (s ++ "-svc")%string in HS
    by (unfold fstr; cbn [String.concat]; reflexivity).
  repeat split; try assumption.
  intros a Hap Har Hav La. rewrite Hframe; try assumption.
  - now apply nth_error_app1.
  - rewrite length_app. lia.
Qed.

(** C10.  On the document
    [http: {routers: &shared {zeta: ...}, services: *shared}], where one
    mapping is both the routers and the services mapping, the merge with
    service name [alpha] returns, and the services mapping then has the
    key [alpha] besides [alpha-svc] and [zeta]: a service key other than
    [alpha-svc] does not have the value it had.  The document is a routing
    document in every other respect. *)
Lemma merge_changes_more_when_shared :
  routing_graph shared_store shared_config 3 2 1 1
    [("zeta", VRef 0)] [("zeta", VRef 0)] /\
  (exists h' S,
     h_merge "example.com" "alpha" "10.0.0.5" "http" shared_config
       shared_store = Ok h' /\
     h_section shared_store shared_config "services" =
       Ok [("zeta", VRef 0)] /\
     h_section h' shared_config "services" = Ok S /\
     map fst S = ["alpha"; "alpha-svc"; "zeta"] /\
     odict_get S "alpha" <> odict_get [("zeta", VRef 0)] "alpha") /\
  ~ merge_changes_only_new_keys "example.com" "alpha" "10.0.0.5" "http"
      shared_config shared_store.
Proof.
  split; [|split].
  - exists [("http", VRef 2)], [("routers", VRef 1); ("services", VRef 1)].
    repeat split; try reflexivity; repeat constructor; simpl; tauto.
  - eexists _, _. split; [vm_compute; reflexivity|].
    split; [reflexivity|]. split; [vm_compute; reflexivity|].
    split; [reflexivity|]. vm_compute. discriminate.
  - intros (h' & R0 & S0 & R & S & Hm & _ & HS0 & _ & HS & _ & Hkeep & _).
    vm_compute in Hm. injection Hm as <-.
    vm_compute in HS0. injection HS0 as <-.
    vm_compute in HS. injection HS as <-.
    specialize (Hkeep "alpha"). vm_compute in Hkeep.
    assert (H : Some (VRef 7) = @None value) by (apply Hkeep; discriminate).
    discriminate H.
Qed.

(** C10.  For every routing document in which the routers mapping and the
    services mapping are two different objects, neither of them the
    document's or the [http] mapping's own object, the merge returns;
    every router key other than the service name and every service key
    other than [<service>-svc] then has the value it had, and no key of
    either mapping is lost.  Every object other than the [http] mapping
    and the two old mappings is as it was, so whatever does not refer to
    one of these three, the kept definitions of a document without
    aliases among them, reads as it did. *)
Theorem merge_touches_only_the_new_keys D s ip sch h config c p r v
  routers services :
  routing_graph h config c p r v routers services ->
  r <> v -> c <> r -> p <> r -> c <> v -> p <> v ->
  merge_changes_only_new_keys D s ip sch config h /\
  exists h',
    h_merge D s ip sch config h = Ok h' /\
    (forall a o, a <> p -> a <> r -> a <> v ->
                 nth_error h a = Some o -> nth_error h' a = Some o) /\
    (forall x depth,
       (forall a, reaches h x a ->
                  (a < length h)%nat /\ a <> p /\ a <> r /\ a <> v) ->
       tree_of depth h' x = tree_of depth h x).
Proof.
  intros Hg Hrv Hcr Hpr Hcv Hpv.
  assert (Hcfg : config = VRef c) by (destruct Hg as (? & ? & ? & _); assumption).
  subst config.
  destruct (h_section_graph _ _ _ _ _ _ _ _ Hg) as [HR0 HS0].
  destruct (h_merge_run D s ip sch h c p r v routers services)
    as (h' & router & service & Hrun & HR & HS & Hframe); try assumption.
  split.
  - exists h', routers, services. eexists _, _.
    split; [exact Hrun|]. split; [exact HR0|]. split; [exact HS0|].
    split; [exact HR|]. split; [exact HS|].
    split; [|split; [|split]].
    + intros k Hk. rewrite odict_get_merged.
      apply not_eq_sym, String.eqb_neq in Hk. now rewrite Hk.
    + intros k Hk. rewrite odict_get_merged.
      apply not_eq_sym, String.eqb_neq in Hk. now rewrite Hk.
    + intros k. apply omerged_keeps_keys.
    + intros k. apply omerged_keeps_keys.
  - exists h'. split; [exact Hrun|]. split.
    + intros a o Hap Har Hav Ha. rewrite Hframe; try assumption.
      now apply nth_error_in_range in Ha.
    + intros x depth Hx. apply tree_of_frame. intros a Ha.
      destruct (Hx a Ha) as (La & Hap & Har & Hav). now apply Hframe.
Qed.

Lemma merge_touches_only_the_new_keys_witness :
  routing_graph unshared_store unshared_config 4 3 1 2
    [("zeta", VRef 0)] [("zeta-svc", VNull)] /\
  merge_changes_only_new_keys "example.com" "alpha" "10.0.0.5" "http"
    unshared_config unshared_store /\
  exists h',
    h_merge "example.com" "alpha" "10.0.0.5" "http" unshared_config
      unshared_store = Ok h' /\
    tree_of 8 h' (VRef 0) = Some (YMap [("service", YStr "zeta-svc")]) /\
    tree_of 8 h' unshared_config =
    Some
      (YMap
         [("http",
           YMap
             [("routers",
               YMap
                 [("alpha",
                   YMap [("entryPoints", YSeq [YStr "https"]);
                         ("rule", YStr "Host(`alpha.example.com`)");
                         ("middlewares", YSeq [YStr "chain-no-auth"]);
                         ("tls", YMap []);
                         ("service", YStr "alpha-svc")]);
                  ("zeta", YMap [("service", YStr "zeta-svc")])]);
              ("services",
               YMap
                 [("alpha-svc",
                   YMap
                     [("loadBalancer",
                       YMap
                         [("servers",
                           YSeq [YMap [("url", YStr "http://10.0.0.5/")]]);
                          ("passHostHeader", YBool true)])]);
                  ("zeta-svc", YNull)])])]).
Proof.
  assert (Hg : routing_graph unshared_store unshared_config 4 3 1 2
                 [("zeta", VRef 0)] [("zeta-svc", VNull)]).
  { exists [("http", VRef 3)], [("routers", VRef 1); ("services", VRef 2)].
    repeat split; try reflexivity; repeat constructor; simpl; tauto. }
  split; [exact Hg|].
  destruct (merge_touches_only_the_new_keys "example.com" "alpha" "10.0.0.5"
              "http" unshared_store unshared_config 4 3 1 2 _ _ Hg)
    as (Hkeys & h' & Hrun & _ & Htree); try discriminate.
  split; [exact Hkeys|].
  exists h'. split; [exact Hrun|]. split.
  - rewrite Htree; [reflexivity|].
    intros a Ha. inversion Ha as [|a0 o x b Ho Hx Hb]; subst.
    + cbn. repeat split; lia || discriminate.
    + cbn in Ho. injection Ho as <-. cbn in Hx.
      destruct Hx as [<-|[]]. inversion Hb.
  - vm_compute in Hrun. injection Hrun as <-. reflexivity.
Defined.

(** On the document without the alias the two mappings end with one new
    key each. *)
Example h_merge_unshared_keys :
  match h_merge "example.com" "alpha" "10.0.0.5" "http" unshared_config
          unshared_store with
  | Ok h' =>
      (match h_section h' unshared_config "routers" with
       | Ok d => map fst d
       | Raise _ => []
       end,
       match h_section h' unshared_config "services" with
       | Ok d => map fst d
       | Raise _ => []
       end)
  | Raise _ => ([], [])
  end =
  (["alpha"; "zeta"], ["alpha-svc"; "zeta-svc"]).
Proof. reflexivity. Qed.
